(** * geoipdb: override store, cache invalidation and IP locality classifier

    A shallow embedding of the two Go source files of turbobytes/geoipdb:
    - package [iputils]: [init], the two tables of non-global prefixes and
      [IsLocalIP];
    - package [geoipdb]: the [Overrides...] methods of [Handler].

    The Go standard library functions the code calls ([net.ParseCIDR],
    [IP.To4], [IP.To16], [IPNet.Contains], [CIDRMask], [IP.Mask]) are
    transcribed from package [net]; they are executable, so that the tables
    of the source are parsed by the model exactly as written. *)

From Stdlib Require Import NArith ZArith List Strings.String Strings.Ascii
  Strings.Byte Bool Lia.
From stdpp Require Import gmap strings list.

Open Scope string_scope.

(** ** Go strings and bytes *)

Module gostr.

(** [s[n:]] *)
Fixpoint from (n : nat) (s : string) : string :=
  match n, s with
  | O, _ => s
  | S n', String _ s' => from n' s'
  | S _, EmptyString => EmptyString
  end.

(** [s[:n]] *)
Fixpoint upto (n : nat) (s : string) : string :=
  match n, s with
  | S n', String c s' => String c (upto n' s')
  | _, _ => EmptyString
  end.

(** [byteIndex(s, c)]; [None] is Go's [-1]. *)
Fixpoint byteIndex (s : string) (c : ascii) : option nat :=
  match s with
  | EmptyString => None
  | String d s' =>
      if Ascii.eqb d c then Some O
      else match byteIndex s' c with
           | Some i => Some (S i)
           | None => None
           end
  end.

Definition code (c : ascii) : N := N_of_ascii c.

Definition between (lo hi c : ascii) : bool :=
  ((code lo <=? code c) && (code c <=? code hi))%N.

End gostr.

(** [byte(n)]: conversion of an integer to a byte keeps the low 8 bits. *)
Definition byte_of_N (n : N) : byte :=
  match Byte.of_N (n mod 256) with
  | Some b => b
  | None => x00
  end.

(** [a & b] on bytes. *)
Definition byte_and (a b : byte) : byte :=
  byte_of_N (N.land (Byte.to_N a) (Byte.to_N b)).

(** ** Package net (the part the classifier uses) *)

Module net.

Definition IPv4len : nat := 4.
Definition IPv6len : nat := 16.

(** A Go slice of bytes: [None] is the nil slice, [Some l] a slice that is
    not nil (possibly of length 0). *)
Definition IP : Type := option (list byte).
Definition IPMask : Type := option (list byte).

Record IPNet : Type := { IPNet_IP : IP; IPNet_Mask : IPMask }.

Definition len (ip : option (list byte)) : nat :=
  match ip with
  | None => 0
  | Some l => length l
  end.

Definition v4InV6Prefix : list byte :=
  [x00; x00; x00; x00; x00; x00; x00; x00; x00; x00; xff; xff].

Definition IPv4 (a b c d : byte) : list byte :=
  v4InV6Prefix ++ [a; b; c; d].

Definition isZeros (p : list byte) : bool :=
  forallb (fun b => Byte.eqb b x00) p.

Definition allFF (p : list byte) : bool :=
  forallb (fun b => Byte.eqb b xff) p.

Definition To4 (ip : IP) : IP :=
  match ip with
  | None => None
  | Some l =>
      if (length l =? IPv4len)%nat then Some l
      else if (length l =? IPv6len)%nat
              && isZeros (take 10 l)
              && Byte.eqb (nth 10 l x00) xff
              && Byte.eqb (nth 11 l x00) xff
      then Some (take 4 (drop 12 l))
      else None
  end.

Definition To16 (ip : IP) : IP :=
  match ip with
  | None => None
  | Some l =>
      if (length l =? IPv4len)%nat
      then Some (IPv4 (nth 0 l x00) (nth 1 l x00) (nth 2 l x00) (nth 3 l x00))
      else if (length l =? IPv6len)%nat then Some l
      else None
  end.

(** The loop of [CIDRMask]: [l] bytes still to fill, [n] one bits left. *)
(** [^byte(0xff >> n)]: the byte with [n] leading one bits. *)
Definition maskByte (n : nat) : byte :=
  byte_of_N (N.lxor 255 (N.shiftr 255 (N.of_nat n))).

Fixpoint maskBytes (l : nat) (n : nat) : list byte :=
  match l with
  | O => []
  | S l' =>
      if (8 <=? n)%nat then xff :: maskBytes l' (n - 8)
      else maskByte n :: maskBytes l' 0
  end.

Definition CIDRMask (ones bits : nat) : IPMask :=
  if negb (bits =? 8 * IPv4len)%nat && negb (bits =? 8 * IPv6len)%nat
  then None
  else if (bits <? ones)%nat then None
  else Some (maskBytes (bits / 8) ones).

Fixpoint bytesEqual (x y : list byte) : bool :=
  match x, y with
  | [], [] => true
  | a :: x', b :: y' => Byte.eqb a b && bytesEqual x' y'
  | _, _ => false
  end.

Fixpoint andBytes (ip mask : list byte) : list byte :=
  match ip, mask with
  | b :: ip', m :: mask' => byte_and b m :: andBytes ip' mask'
  | _, _ => []
  end.

(** [ip.Mask(mask)] *)
Definition Mask (ip : IP) (mask : IPMask) : IP :=
  let ipl := match ip with Some l => l | None => [] end in
  let ml := match mask with Some l => l | None => [] end in
  let ml :=
    if (length ml =? IPv6len)%nat && (length ipl =? IPv4len)%nat
       && allFF (take 12 ml)
    then drop 12 ml else ml in
  let ipl :=
    if (length ml =? IPv4len)%nat && (length ipl =? IPv6len)%nat
       && bytesEqual (take 12 ipl) v4InV6Prefix
    then drop 12 ipl else ipl in
  if negb (length ipl =? length ml)%nat then None
  else Some (andBytes ipl ml).

Definition big : N := 16777215.

Definition isDigit (c : ascii) : bool := gostr.between "0" "9" c.

(** [dtoi]: decimal to integer; returns the number, the count of
    characters consumed and a success flag. *)
Fixpoint dtoi_loop (s : string) (n : N) (i : nat) : N * nat * bool :=
  match s with
  | String c s' =>
      if isDigit c then
        let n' := (n * 10 + (gostr.code c - gostr.code "0"))%N in
        if (big <=? n')%N then (big, i, false)
        else dtoi_loop s' n' (S i)
      else (n, i, true)
  | EmptyString => (n, i, true)
  end.

Definition dtoi (s : string) : N * nat * bool :=
  match dtoi_loop s 0 0 with
  | (n, i, false) => (n, i, false)
  | (n, O, true) => (0%N, O, false)
  | (n, i, true) => (n, i, true)
  end.

(** [xtoi]: hexadecimal to integer. *)
Definition hexval (c : ascii) : option N :=
  if gostr.between "0" "9" c then Some (gostr.code c - gostr.code "0")%N
  else if gostr.between "a" "f" c then Some (gostr.code c - gostr.code "a" + 10)%N
  else if gostr.between "A" "F" c then Some (gostr.code c - gostr.code "A" + 10)%N
  else None.

Fixpoint xtoi_loop (s : string) (n : N) (i : nat) : N * nat * bool :=
  match s with
  | String c s' =>
      match hexval c with
      | Some d =>
          let n' := (n * 16 + d)%N in
          if (big <=? n')%N then (0%N, i, false)
          else xtoi_loop s' n' (S i)
      | None => (n, i, true)
      end
  | EmptyString => (n, i, true)
  end.

Definition xtoi (s : string) : N * nat * bool :=
  match xtoi_loop s 0 0 with
  | (n, i, false) => (n, i, false)
  | (n, O, true) => (0%N, O, false)
  | (n, i, true) => (n, i, true)
  end.

(** The loop of [parseIPv4]: [k] octets still to read; [first] tells the
    iteration [i = 0], which expects no dot. Returns the octets and the
    rest of the string. *)
Fixpoint parseIPv4_loop (k : nat) (first : bool) (s : string)
  : option (list byte * string) :=
  match k with
  | O => Some ([], s)
  | S k' =>
      match s with
      | EmptyString => None
      | String c0 s1 =>
          if negb first && negb (Ascii.eqb c0 ".") then None
          else
            let s := if first then s else s1 in
            match dtoi s with
            | (n, c, ok) =>
                if negb ok || (255 <? n)%N then None
                else
                  match parseIPv4_loop k' false (gostr.from c s) with
                  | Some (p, rest) => Some (byte_of_N n :: p, rest)
                  | None => None
                  end
            end
      end
  end.

(** [parseIPv4]: the 16-byte form [IPv4(p0, p1, p2, p3)], or nil. *)
Definition parseIPv4 (s : string) : IP :=
  match parseIPv4_loop IPv4len true s with
  | Some (p, EmptyString) =>
      Some (IPv4 (nth 0 p x00) (nth 1 p x00) (nth 2 p x00) (nth 3 p x00))
  | _ => None
  end.

(** State of the main loop of [parseIPv6] when it is left: by a
    [return nil] ([Fail6]) or by [break] or the loop condition ([Exit6]).
    [ellipsis] is [-1] while no [::] has been seen. *)
Inductive loop6 : Type :=
| Fail6
| Exit6 (ip : list byte) (i : nat) (ellipsis : Z) (s : string).

Definition at0 (s : string) : ascii :=
  match s with
  | String c _ => c
  | EmptyString => zero
  end.

(** The loop [for i < IPv6len]. Every turn that does not leave the loop
    adds 2 to [i], so 8 turns are enough; [fuel] counts them. *)
Fixpoint parseIPv6_loop (fuel : nat) (ip : list byte) (i : nat)
  (ellipsis : Z) (s : string) : loop6 :=
  match fuel with
  | O => Exit6 ip i ellipsis s
  | S fuel' =>
      if negb (i <? IPv6len)%nat then Exit6 ip i ellipsis s
      else
        match xtoi s with
        | (n, c, ok) =>
            if negb ok || (65535 <? n)%N then Fail6
            else if (c <? String.length s)%nat
                    && Ascii.eqb (at0 (gostr.from c s)) "."
            then
              (* trailing IPv4 *)
              if (ellipsis <? 0)%Z && negb (i =? IPv6len - IPv4len)%nat
              then Fail6
              else if (IPv6len <? i + IPv4len)%nat then Fail6
              else
                match parseIPv4 s with
                | None => Fail6
                | Some ip4 =>
                    let ip := <[i := nth 12 ip4 x00]> ip in
                    let ip := <[i + 1 := nth 13 ip4 x00]> ip in
                    let ip := <[i + 2 := nth 14 ip4 x00]> ip in
                    let ip := <[i + 3 := nth 15 ip4 x00]> ip in
                    Exit6 ip (i + IPv4len) ellipsis ""
                end
            else
              (* save this 16-bit chunk *)
              let ip := <[i := byte_of_N (N.shiftr n 8)]> ip in
              let ip := <[i + 1 := byte_of_N n]> ip in
              let i := i + 2 in
              let s := gostr.from c s in
              match s with
              | EmptyString => Exit6 ip i ellipsis s
              | String c0 s1 =>
                  if negb (Ascii.eqb c0 ":") || (String.length s =? 1)%nat
                  then Fail6
                  else
                    match s1 with
                    | String ":" s2 =>
                        if (0 <=? ellipsis)%Z then Fail6
                        else
                          match s2 with
                          | EmptyString => Exit6 ip i (Z.of_nat i) s2
                          | _ => parseIPv6_loop fuel' ip i (Z.of_nat i) s2
                          end
                    | _ => parseIPv6_loop fuel' ip i ellipsis s1
                    end
              end
        end
  end.

(** [for j := i - 1; j >= ellipsis; j-- { ip[j+n] = ip[j] }], with [cnt]
    turns left and [j] the current index. *)
Fixpoint moveUp (cnt j n : nat) (ip : list byte) : list byte :=
  match cnt with
  | O => ip
  | S cnt' => moveUp cnt' (j - 1) n (<[j + n := nth j ip x00]> ip)
  end.

(** [for j := ellipsis + n - 1; j >= ellipsis; j-- { ip[j] = 0 }] *)
Fixpoint zeroDown (cnt j : nat) (ip : list byte) : list byte :=
  match cnt with
  | O => ip
  | S cnt' => zeroDown cnt' (j - 1) (<[j := x00]> ip)
  end.

(** [parseIPv6(s, false)]: no zone is allowed. *)
Definition parseIPv6 (s : string) : IP :=
  let ip := repeat x00 IPv6len in
  let after (r : loop6) : IP :=
    match r with
    | Fail6 => None
    | Exit6 ip i ellipsis s =>
        if negb (String.length s =? 0)%nat then None
        else if (i <? IPv6len)%nat then
          if (ellipsis <? 0)%Z then None
          else
            let e := Z.to_nat ellipsis in
            let n := IPv6len - i in
            let ip := moveUp (i - e) (i - 1) n ip in
            Some (zeroDown n (e + n - 1) ip)
        else if (0 <=? ellipsis)%Z then None
        else Some ip
    end in
  match s with
  | String ":" (String ":" s2) =>
      match s2 with
      | EmptyString => Some ip
      | _ => after (parseIPv6_loop 8 ip 0 0%Z s2)
      end
  | _ => after (parseIPv6_loop 8 ip 0 (-1)%Z s)
  end.

(** [&ParseError{Type: typ, Text: text}] *)
Record ParseError : Type := { Type_ : string; Text : string }.

Definition Error (e : ParseError) : string :=
  "invalid " ++ Type_ e ++ ": " ++ Text e.

(** [ParseCIDR(s)]: the address and the network, or the error. *)
Definition ParseCIDR (s : string) : (IP * IPNet) + ParseError :=
  let bad := inr {| Type_ := "CIDR address"; Text := s |} in
  match gostr.byteIndex s "/" with
  | None => bad
  | Some i =>
      let addr := gostr.upto i s in
      let mask := gostr.from (i + 1) s in
      let ip4 := parseIPv4 addr in
      let iplen := match ip4 with Some _ => IPv4len | None => IPv6len end in
      let ip := match ip4 with Some _ => ip4 | None => parseIPv6 addr end in
      match dtoi mask with
      | (n, j, ok) =>
          match ip with
          | None => bad
          | Some _ =>
              if negb ok || negb (j =? String.length mask)%nat
                 || (N.of_nat (8 * iplen) <? n)%N
              then bad
              else
                let m := CIDRMask (N.to_nat n) (8 * iplen) in
                inl (ip, {| IPNet_IP := Mask ip m; IPNet_Mask := m |})
          end
      end
  end.

(** [networkNumberAndMask(n)] *)
Definition networkNumberAndMask (n : IPNet) : IP * IPMask :=
  let ip4 := To4 (IPNet_IP n) in
  let ip := match ip4 with Some _ => ip4 | None => IPNet_IP n end in
  match ip4, negb (len ip =? IPv6len)%nat with
  | None, true => (None, None)
  | _, _ =>
      if (len (IPNet_Mask n) =? IPv4len)%nat then
        if negb (len ip =? IPv4len)%nat then (None, None)
        else (ip, IPNet_Mask n)
      else if (len (IPNet_Mask n) =? IPv6len)%nat then
        if (len ip =? IPv4len)%nat
        then (ip, option_map (drop 12) (IPNet_Mask n))
        else (ip, IPNet_Mask n)
      else (None, None)
  end.

(** The comparison loop of [Contains]. *)
Fixpoint sameUnderMask (nn m ip : list byte) : bool :=
  match nn, m, ip with
  | a :: nn', k :: m', b :: ip' =>
      Byte.eqb (byte_and a k) (byte_and b k) && sameUnderMask nn' m' ip'
  | _, _, _ => true
  end.

(** [n.Contains(ip)] *)
Definition Contains (n : IPNet) (ip : IP) : bool :=
  match networkNumberAndMask n with
  | (nn, m) =>
      let ip := match To4 ip with Some x => Some x | None => ip end in
      let l := len ip in
      if negb (l =? len nn)%nat then false
      else
        sameUnderMask (default [] nn) (default [] m) (default [] ip)
  end.

End net.

(** ** Package iputils *)

Module iputils.
Import net.

(** [nonGlobalIPv4CIDRs] contains IANA IPv4 Special-Purpose Address
    Registry, where 'Global' flag is false. *)
Definition nonGlobalIPv4CIDRs : list string :=
  [ "127.0.0.0/8";        (* Loopback, RFC1122 *)
    "192.168.0.0/16";     (* Private-Use, RFC1918 *)
    "10.0.0.0/8";         (* Private-Use, RFC1918 *)
    "172.16.0.0/12";      (* Private-Use, RFC1918 *)
    "0.0.0.0/8";          (* This host on this network, RFC1122 *)
    "100.64.0.0/10";      (* Shared Address Space, RFC6598 *)
    "169.254.0.0/16";     (* Link Local, RFC3927 *)
    "192.0.0.0/24";       (* IETF Protocol Assignments, RFC6890 *)
    "192.0.2.0/24";       (* Documentation (TEST-NET-1), RFC5737 *)
    "198.18.0.0/15";      (* Benchmarking, RFC2544 *)
    "198.51.100.0/24";    (* Documentation (TEST-NET-2), RFC5737 *)
    "203.0.113.0/24";     (* Documentation (TEST-NET-3), RFC5737 *)
    "240.0.0.0/4";        (* Reserved, RFC1112 *)
    "255.255.255.255/32"  (* Limited Broadcast, RFC919 *)
  ].

(** [nonGlobalIPv6CIDRs] contains IANA IPv6 Special-Purpose Address
    Registry, where 'Global' flag is false. *)
Definition nonGlobalIPv6CIDRs : list string :=
  [ "::1/128";       (* Loopback Address, RFC4291 *)
    "fc00::/7";      (* Unique-Local, RFC4193 *)
    "::ffff:0:0/96"; (* IPv4-mapped Address, RFC4291 *)
    "2001::/23";     (* IETF Protocol Assignments, RFC2928 *)
    "fe80::/10";     (* Linked-Scoped Unicast, RFC4291 *)
    "2001:db8::/32"; (* Documentation, RFC3849 *)
    "2001:2::/48";   (* Benchmarking, RFC5180 *)
    "2001::/32";     (* TEREDO, RFC4380 *)
    "100::/64";      (* Discard-Only Address Block, RFC6666 *)
    "::/128"         (* Unspecified Address, RFC4291 *)
  ].

(** Outcome of a package initialisation: it completes or it panics. *)
Inductive outcome : Type :=
| Completed
| Panic (msg : string).

(** The loop of [init] over [cidrs]. *)
Fixpoint checkCIDRs (cidrs : list string) : outcome :=
  match cidrs with
  | [] => Completed
  | cidr :: rest =>
      match ParseCIDR cidr with
      | inr err => Panic ("unparseable CIDR '" ++ cidr ++ "': " ++ Error err)
      | inl _ => checkCIDRs rest
      end
  end.

(** [init] on given tables; the package runs it on its own two. *)
Definition init_on (v4 v6 : list string) : outcome :=
  checkCIDRs (v4 ++ v6).

Definition init : outcome := init_on nonGlobalIPv4CIDRs nonGlobalIPv6CIDRs.

(** The loop [for _, cidr := range cidrs] of [IsLocalIP]: [true] is the
    [return true] inside the loop, [false] the end of the loop. *)
Fixpoint anyContains (cidrs : list string) (ip : IP) : bool :=
  match cidrs with
  | [] => false
  | cidr :: rest =>
      match ParseCIDR cidr with
      | inr _ => anyContains rest ip (* continue *)
      | inl (_, inet) =>
          if Contains inet ip then true else anyContains rest ip
      end
  end.

(** [IsLocalIP] over given tables. *)
Definition IsLocalIP_on (v4 v6 : list string) (ip : IP) : bool :=
  match ip with
  | None => true
  | Some _ =>
      match To4 ip with
      | Some ip4 => anyContains v4 (Some ip4)
      | None =>
          match To16 ip with
          | Some ip6 => anyContains v6 (Some ip6)
          | None => false
          end
      end
  end.

(** [IsLocalIP] tells if an IP address is not forwardable beyond a
    network. *)
Definition IsLocalIP (ip : IP) : bool :=
  IsLocalIP_on nonGlobalIPv4CIDRs nonGlobalIPv6CIDRs ip.

End iputils.

(** ** Prefixes, as the registry gives them

    What the strings of the two tables denote, written independently of the
    parser: a base address and a number of leading bits. An address is
    inside a prefix when it has the length of the base and agrees with it
    on those leading bits. *)

Module prefixes.

(** The bits of a byte, most significant first. *)
Definition bits8 (b : byte) : list bool :=
  map (N.testbit (Byte.to_N b)) [7; 6; 5; 4; 3; 2; 1; 0]%N.

Fixpoint bitsOf (a : list byte) : list bool :=
  match a with
  | [] => []
  | b :: a' => (bits8 b ++ bitsOf a')%list
  end.

Record prefix : Type := { base : list byte; plen : nat }.

Definition inside (p : prefix) (a : list byte) : Prop :=
  length a = length (base p)
  /\ take (plen p) (bitsOf a) = take (plen p) (bitsOf (base p)).

(** [a.b.c.d/n] *)
Definition v4 (a b c d : N) (n : nat) : prefix :=
  {| base := map byte_of_N [a; b; c; d]; plen := n |}.

(** Eight groups of 16 bits, and the length. *)
Definition v6 (groups : list N) (n : nat) : prefix :=
  {| base := flat_map (fun g => [byte_of_N (g / 256); byte_of_N g]) groups;
     plen := n |}.

Definition ipv4Prefixes : list prefix :=
  [ v4 127 0 0 0 8;
    v4 192 168 0 0 16;
    v4 10 0 0 0 8;
    v4 172 16 0 0 12;
    v4 0 0 0 0 8;
    v4 100 64 0 0 10;
    v4 169 254 0 0 16;
    v4 192 0 0 0 24;
    v4 192 0 2 0 24;
    v4 198 18 0 0 15;
    v4 198 51 100 0 24;
    v4 203 0 113 0 24;
    v4 240 0 0 0 4;
    v4 255 255 255 255 32 ].

(** [::ffff:0:0/96], the IPv4-mapped addresses. *)
Definition v4mapped : prefix := v6 [0; 0; 0; 0; 0; 0xffff; 0; 0]%N 96.

Definition ipv6Prefixes : list prefix :=
  [ v6 [0; 0; 0; 0; 0; 0; 0; 1]%N 128;
    v6 [0xfc00; 0; 0; 0; 0; 0; 0; 0]%N 7;
    v4mapped;
    v6 [0x2001; 0; 0; 0; 0; 0; 0; 0]%N 23;
    v6 [0xfe80; 0; 0; 0; 0; 0; 0; 0]%N 10;
    v6 [0x2001; 0xdb8; 0; 0; 0; 0; 0; 0]%N 32;
    v6 [0x2001; 0x2; 0; 0; 0; 0; 0; 0]%N 48;
    v6 [0x2001; 0; 0; 0; 0; 0; 0; 0]%N 32;
    v6 [0x100; 0; 0; 0; 0; 0; 0; 0]%N 64;
    v6 [0; 0; 0; 0; 0; 0; 0; 0]%N 128 ].

(** The network a prefix stands for, as [ParseCIDR] builds it. *)
Definition netOf (p : prefix) : net.IPNet :=
  {| net.IPNet_IP := Some (base p);
     net.IPNet_Mask := Some (net.maskBytes (length (base p)) (plen p)) |}.

(** The networks of the strings of a table that parse. *)
Fixpoint netsOf (cidrs : list string) : list net.IPNet :=
  match cidrs with
  | [] => []
  | cidr :: rest =>
      match net.ParseCIDR cidr with
      | inl (_, inet) => inet :: netsOf rest
      | inr _ => netsOf rest
      end
  end.

End prefixes.

(** ** Package mgo (the document store driver, as the handler uses it) *)

Module mgo.

(** Errors of the driver: the sentinel [ErrNotFound], or any other
    failure, with its message. *)
Inductive error : Type :=
| ErrNotFound
| Failure (msg : string).

Definition Error (e : error) : string :=
  match e with
  | ErrNotFound => "not found"
  | Failure msg => msg
  end.

(** A collection: its documents, keyed by [_id], each with the value of
    its [name] field; and what the transport does at the coming calls,
    one entry per call ([None]: the call goes through, [Some msg]: it
    fails with that message and changes nothing). Past the end of
    [faults] every call goes through. *)
Record Collection : Type :=
  { docs : gmap string string; faults : list (option string) }.

Definition nextCall (c : Collection) : option string * Collection :=
  match faults c with
  | [] => (None, c)
  | f :: fs => (f, {| docs := docs c; faults := fs |})
  end.

(** [c.FindId(id).One(&result)]: the [name] of the document, or the
    error. *)
Definition FindIdOne (id : string) (c : Collection)
  : (string + error) * Collection :=
  match nextCall c with
  | (Some msg, c') => (inr (Failure msg), c')
  | (None, c') =>
      match docs c' !! id with
      | Some name => (inl name, c')
      | None => (inr ErrNotFound, c')
      end
  end.

(** [c.UpsertId(id, bson.M{"$set": bson.M{"name": name}})] *)
Definition UpsertIdSetName (id name : string) (c : Collection)
  : option error * Collection :=
  match nextCall c with
  | (Some msg, c') => (Some (Failure msg), c')
  | (None, c') =>
      (None, {| docs := <[id := name]> (docs c'); faults := faults c' |})
  end.

(** [c.RemoveId(id)] *)
Definition RemoveId (id : string) (c : Collection)
  : option error * Collection :=
  match nextCall c with
  | (Some msg, c') => (Some (Failure msg), c')
  | (None, c') =>
      match docs c' !! id with
      | Some _ =>
          (None, {| docs := delete id (docs c'); faults := faults c' |})
      | None => (Some ErrNotFound, c')
      end
  end.

(** [c.Find(nil).All(&result)] with [result] a nil slice of records
    [(id, name)]: the slice stays nil ([None]) when there is no
    document. *)
Definition FindAll (c : Collection)
  : (option (list (string * string)) + error) * Collection :=
  match nextCall c with
  | (Some msg, c') => (inr (Failure msg), c')
  | (None, c') =>
      match map_to_list (docs c') with
      | [] => (inl None, c')
      | l => (inl (Some l), c')
      end
  end.

(** The transport lets the next [n] calls on the collection through. *)
Definition noFault (n : nat) (c : Collection) : Prop :=
  Forall (fun f => f = None) (take n (faults c)).

End mgo.

(** ** Package geoipdb: the overrides of a handler *)

Module geoipdb.

(** [AsnOverride] is what is stored in the overrides collection. *)
Record AsnOverride : Type := { Asn : string; Name : string }.

Inductive error : Type :=
| OverridesNilCollectionError
| OverridesAsnNotFoundError
| OverridesMalformedAsnError
| Errorf (msg : string).

(** Modelled from the spec: the type of [Handler.cache] and its method
    [purgeASN] are not in the source files at hand. The spec gives the
    cache as a map from identifier to description with point
    invalidation by key, which is a no-op on an absent key. *)
Definition purgeASN (asn : string) (cache : gmap string string)
  : gmap string string :=
  delete asn cache.

(** The two fields of [Handler] the methods use. Both are shared objects
    the methods change in place; [overrides] is [None] for a handler with
    a nil collection. *)
Record Handler : Type :=
  { cache : gmap string string; overrides : option mgo.Collection }.

(** The calls a method makes on its two collaborators. *)
Inductive call : Type :=
| CachePurgeASN (asn : string)
| StoreFindId (asn : string)
| StoreUpsertId (asn descr : string)
| StoreRemoveId (asn : string)
| StoreFind.

Definition isStoreCall (c : call) : bool :=
  match c with
  | CachePurgeASN _ => false
  | _ => true
  end.

(** A method run: from the state of the handler's objects to the value
    returned, their new state and the calls made, oldest first. *)
Definition M (A : Type) : Type := Handler -> A * Handler * list call.

Definition ret {A} (a : A) : M A := fun h => (a, h, []).

Definition bind {A B} (m : M A) (k : A -> M B) : M B :=
  fun h =>
    match m h with
    | (a, h1, l1) =>
        match k a h1 with
        | (b, h2, l2) => (b, h2, (l1 ++ l2)%list)
        end
    end.

Notation "x <- m ;; k" := (bind m (fun x => k))
  (at level 100, m at level 99, k at level 200, right associativity).

(** [h.cache.purgeASN(asn)] *)
Definition cache_purgeASN (asn : string) : M unit :=
  fun h =>
    (tt, {| cache := purgeASN asn (cache h); overrides := overrides h |},
     [CachePurgeASN asn]).

(** A call on the collection [c] that [h.overrides] points to. *)
Definition onStore {A} (what : call)
  (op : mgo.Collection -> A * mgo.Collection) (c : mgo.Collection) : M A :=
  fun h =>
    match op c with
    | (a, c') => (a, {| cache := cache h; overrides := Some c' |}, [what])
    end.

Definition getOverrides : M (option mgo.Collection) :=
  fun h => (overrides h, h, []).

Section Overrides.

(** [reASN.MatchString]: the regular expression is declared in a file
    of the package that is not at hand. *)
Variable reASN_MatchString : string -> bool.

(** [OverridesLookup] queries the database of local overrides for the
    description of a given ASN. *)
Definition OverridesLookup (asn : string) : M (string * option error) :=
  coll <- getOverrides ;;
  match coll with
  | None => ret ("", Some OverridesNilCollectionError)
  | Some c =>
      r <- onStore (StoreFindId asn) (mgo.FindIdOne asn) c ;;
      match r with
      | inr mgo.ErrNotFound => ret ("", Some OverridesAsnNotFoundError)
      | inr err =>
          ret ("", Some (Errorf ("cannot lookup override: " ++ mgo.Error err)))
      | inl name => ret (Name {| Asn := asn; Name := name |}, None)
      end
  end.

(** [OverridesSet] stores or updates a user defined description for a
    given ASN in the database of local overrides. Moreover, this method
    purges the cache of all data related to the given asn. *)
Definition OverridesSet (asn descr : string) : M (option error) :=
  _ <- cache_purgeASN asn ;;
  coll <- getOverrides ;;
  match coll with
  | None => ret (Some OverridesNilCollectionError)
  | Some c =>
      if negb (reASN_MatchString asn)
      then ret (Some OverridesMalformedAsnError)
      else
        err <- onStore (StoreUpsertId asn descr)
                 (mgo.UpsertIdSetName asn descr) c ;;
        match err with
        | Some e =>
            ret (Some (Errorf ("cannot set override: " ++ mgo.Error e)))
        | None => ret None
        end
  end.

(** [OverridesRemove] removes the description for a given ASN from the
    database of local overrides. If there is no such ASN,
    [OverridesRemove] returns silently without error. Moreover, this
    method purges the cache of all data related to the given asn. *)
Definition OverridesRemove (asn : string) : M (option error) :=
  _ <- cache_purgeASN asn ;;
  coll <- getOverrides ;;
  match coll with
  | None => ret (Some OverridesNilCollectionError)
  | Some c =>
      err <- onStore (StoreRemoveId asn) (mgo.RemoveId asn) c ;;
      match err with
      | Some mgo.ErrNotFound => ret None
      | Some e =>
          ret (Some (Errorf ("cannot remove override: " ++ mgo.Error e)))
      | None => ret None
      end
  end.

(** [OverridesList] answers all ASN description overrides. The slice
    returned is [None] for Go's nil. *)
Definition OverridesList : M (option (list AsnOverride) * option error) :=
  coll <- getOverrides ;;
  match coll with
  | None => ret (None, Some OverridesNilCollectionError)
  | Some c =>
      r <- onStore StoreFind mgo.FindAll c ;;
      match r with
      | inr err =>
          ret (None,
               Some (Errorf ("cannot retrieve overrides: " ++ mgo.Error err)))
      | inl None => ret (Some [], None)
      | inl (Some rows) =>
          ret (Some (map (fun r => {| Asn := r.1; Name := r.2 |}) rows),
               None)
      end
  end.

End Overrides.

(** An ASN syntax to run the methods with: [AS] and then one decimal
    digit or more. *)
Fixpoint allDigits (s : string) : bool :=
  match s with
  | EmptyString => true
  | String c s' => net.isDigit c && allDigits s'
  end.

Definition asDigits (s : string) : bool :=
  match s with
  | String "A" (String "S" (String c s')) => allDigits (String c s')
  | _ => false
  end.

(** Handlers to run the methods on: a store without records and a
    transport without faults, and a cache with one entry. *)
Definition emptyStore : mgo.Collection :=
  {| mgo.docs := ∅; mgo.faults := [] |}.

Definition staleHandler : Handler :=
  {| cache := {["bogus" := "stale"]}; overrides := Some emptyStore |}.

Definition cachedHandler : Handler :=
  {| cache := {["AS15169" := "v1"]}; overrides := Some emptyStore |}.

End geoipdb.


(** ** What a handler's store holds *)

Module views.
Import geoipdb.

(** The records of the collection a handler points to; none for a nil
    collection. *)
Definition docsOf (h : Handler) : gmap string string :=
  match overrides h with
  | Some c => mgo.docs c
  | None => ∅
  end.

(** A handler whose store holds one record and whose cache holds two
    entries. *)
Definition busyHandler : Handler :=
  {| cache := <["AS1" := "one (cached)"]> {["AS2" := "two (cached)"]};
     overrides :=
       Some {| mgo.docs := {["AS2" := "two"]}; mgo.faults := [] |} |}.

(** A handler whose transport fails at the next call. *)
Definition downHandler : Handler :=
  {| cache := {["AS1" := "one (cached)"]};
     overrides :=
       Some {| mgo.docs := {["AS2" := "two"]};
               mgo.faults := [Some "no reachable servers"] |} |}.

End views.

(** ** The classifier, read as ranges *)

Module ranges.
Import net.

(** Whether a string of a table parses as a prefix. *)
Definition parses (cidr : string) : bool :=
  match ParseCIDR cidr with
  | inl _ => true
  | inr _ => false
  end.

(** The IPv4 addresses that are not global, by their four octets: the
    ranges of the registry in decimal. *)
Definition nonGlobalV4 (a b c d : N) : bool :=
  existsb id
    [ (a =? 127);
      (a =? 192) && (b =? 168);
      (a =? 10);
      (a =? 172) && ((16 <=? b) && (b <=? 31));
      (a =? 0);
      (a =? 100) && ((64 <=? b) && (b <=? 127));
      (a =? 169) && (b =? 254);
      (a =? 192) && ((b =? 0) && (c =? 0));
      (a =? 192) && ((b =? 0) && (c =? 2));
      (a =? 198) && ((18 <=? b) && (b <=? 19));
      (a =? 198) && ((b =? 51) && (c =? 100));
      (a =? 203) && ((b =? 0) && (c =? 113));
      (240 <=? a) ]%N.

(** Whether the octets [o] start with the octets [pre]. *)
Fixpoint startsWith (pre o : list N) : bool :=
  match pre, o with
  | [], _ => true
  | x :: pre', b :: o' => (b =? x)%N && startsWith pre' o'
  | _ :: _, [] => false
  end.

(** The IPv6 addresses that are not global, by their sixteen octets;
    the IPv4-mapped addresses are not judged here. *)
Definition nonGlobalV6 (o : list N) : bool :=
  match o with
  | [o0; o1; o2; _; _; _; _; _; _; _; _; _; _; _; _; _] =>
      existsb id
        [ startsWith [0; 0; 0; 0; 0; 0; 0; 0; 0; 0; 0; 0; 0; 0; 0; 1] o;
                                                        (* ::1 *)
          (252 <=? o0) && (o0 <=? 253);                 (* fc00::/7 *)
          startsWith [32; 1] o && (o2 <=? 1);           (* 2001::/23 *)
          startsWith [254] o && ((128 <=? o1) && (o1 <=? 191));
                                                        (* fe80::/10 *)
          startsWith [32; 1; 13; 184] o;                (* 2001:db8::/32 *)
          startsWith [1; 0; 0; 0; 0; 0; 0; 0] o;        (* 100::/64 *)
          startsWith [0; 0; 0; 0; 0; 0; 0; 0; 0; 0; 0; 0; 0; 0; 0; 0] o ]
                                                        (* :: *)
  | _ => false
  end%N.

End ranges.

(** * Properties of the classifier *)

Module iputils_facts.
Import net iputils prefixes.
Local Open Scope list_scope.
Local Arguments bits8 : simpl never.

(** *** The loop of [parseIPv6] needs no more than 8 turns *)

Lemma parseIPv6_loop_fuel fuel ip i ellipsis s :
  IPv6len <= i + 2 * fuel ->
  parseIPv6_loop (S fuel) ip i ellipsis s
  = parseIPv6_loop fuel ip i ellipsis s.
Proof.
  revert ip i ellipsis s. induction fuel as [|fuel IH]; intros ip i e s Hi.
  - cbn [parseIPv6_loop].
    destruct (i <? IPv6len)%nat eqn:E; [|reflexivity].
    apply Nat.ltb_lt in E. lia.
  - assert (U : forall f ip i e s,
               parseIPv6_loop (S f) ip i e s
               = ltac:(let t := eval cbn [parseIPv6_loop] in
                                (parseIPv6_loop (S f) ip i e s) in
                       exact t)) by reflexivity.
    rewrite (U (S fuel)), (U fuel ip i e s). clear U.
    destruct (negb (i <? IPv6len)%nat); [reflexivity|].
    destruct (xtoi s) as [[n c] ok].
    destruct (negb ok || (65535 <? n)%N); [reflexivity|].
    destruct ((c <? String.length s)%nat
              && Ascii.eqb (at0 (gostr.from c s)) "."); [reflexivity|].
    destruct (gostr.from c s) as [|c0 s1]; [reflexivity|].
    destruct (negb (Ascii.eqb c0 ":")
              || (String.length (String c0 s1) =? 1)%nat); [reflexivity|].
    assert (Hi' : IPv6len <= (i + 2) + 2 * fuel) by lia.
    destruct s1 as [|c1 s2]; [by rewrite IH|].
    destruct (Ascii.ascii_dec c1 ":") as [->|Hne].
    + destruct (0 <=? e)%Z; [reflexivity|].
      destruct s2; [reflexivity|]. by rewrite IH.
    + assert (forall A (x y : A),
                 match String c1 s2 with
                 | String ":" _ => x
                 | _ => y
                 end = y) as Hm.
      { intros A x y. destruct c1 as [[] [] [] [] [] [] [] []]; try reflexivity.
        by destruct Hne. }
      rewrite !Hm. by rewrite IH.
Qed.

Lemma parseIPv6_loop_enough k ip ellipsis s :
  parseIPv6_loop (8 + k) ip 0 ellipsis s = parseIPv6_loop 8 ip 0 ellipsis s.
Proof.
  induction k as [|k IH]; [by rewrite Nat.add_0_r|].
  rewrite Nat.add_succ_r, parseIPv6_loop_fuel; [done|].
  unfold IPv6len. lia.
Qed.

(** *** One byte *)

Lemma bits8_length b : length (bits8 b) = 8.
Proof. reflexivity. Qed.

Lemma bits8_inj a b : bits8 a = bits8 b -> a = b.
Proof.
  intros H.
  assert (R : forall x, Byte.of_bits
             (match bits8 x with
              | [b7; b6; b5; b4; b3; b2; b1; b0] =>
                  (b0, (b1, (b2, (b3, (b4, (b5, (b6, b7)))))))
              | _ => Byte.to_bits x00
              end) = x) by (intros x; destruct x; reflexivity).
  rewrite <- (R a), <- (R b), H. reflexivity.
Qed.

Lemma byte_and_ff a : byte_and a xff = a.
Proof. destruct a; reflexivity. Qed.

Lemma bits8_masked n a :
  n < 8 ->
  bits8 (byte_and a (maskByte n)) = take n (bits8 a) ++ repeat false (8 - n).
Proof.
  intros Hn.
  do 8 (destruct n as [|n]; [destruct a; vm_compute; reflexivity|]).
  lia.
Qed.

Lemma eqb_masked_ff a b :
  Byte.eqb (byte_and a xff) (byte_and b xff) = true <-> bits8 a = bits8 b.
Proof.
  rewrite !byte_and_ff. split.
  - intros H. apply Byte.byte_dec_bl in H. by subst.
  - intros H. apply Byte.byte_dec_lb. by apply bits8_inj.
Qed.

Lemma eqb_masked n a b :
  n < 8 ->
  Byte.eqb (byte_and a (maskByte n)) (byte_and b (maskByte n)) = true
  <-> take n (bits8 a) = take n (bits8 b).
Proof.
  intros Hn. split.
  - intros H. apply Byte.byte_dec_bl in H.
    apply (f_equal bits8) in H. rewrite !bits8_masked in H by done.
    by apply app_inv_tail in H.
  - intros H. apply Byte.byte_dec_lb, bits8_inj.
    rewrite !bits8_masked by done. by rewrite H.
Qed.

(** *** Lists of bytes *)

Lemma bitsOf_length a : length (bitsOf a) = 8 * length a.
Proof.
  induction a as [|b a IH]; [done|].
  change (bitsOf (b :: a)) with (bits8 b ++ bitsOf a).
  rewrite length_app, IH, bits8_length. simpl. lia.
Qed.

Lemma bitsOf_inj a b : bitsOf a = bitsOf b -> a = b.
Proof.
  revert b. induction a as [|x a IH]; intros [|y b] H; try done.
  change (bits8 x ++ bitsOf a = bits8 y ++ bitsOf b) in H.
  apply app_inj_1 in H as [Hx Hr]; [|done].
  f_equal; [by apply bits8_inj | by apply IH].
Qed.

Lemma bitsOf_take k a : take (8 * k) (bitsOf a) = bitsOf (take k a).
Proof.
  revert a. induction k as [|k IH]; intros a.
  - by rewrite Nat.mul_0_r.
  - destruct a as [|b a]; [done|].
    replace (8 * S k) with (8 + 8 * k) by lia.
    change (bitsOf (b :: a)) with (bits8 b ++ bitsOf a).
    rewrite take_app_add'; [|done]. simpl take at 2. simpl bitsOf.
    by rewrite IH.
Qed.

Lemma maskBytes_S l n :
  maskBytes (S l) n
  = if (8 <=? n)%nat then xff :: maskBytes l (n - 8)
    else maskByte n :: maskBytes l 0.
Proof. reflexivity. Qed.

Lemma sameUnderMask_cons a nn k m b ip :
  sameUnderMask (a :: nn) (k :: m) (b :: ip)
  = Byte.eqb (byte_and a k) (byte_and b k) && sameUnderMask nn m ip.
Proof. reflexivity. Qed.

Lemma sameUnderMask_zero nn l ip :
  sameUnderMask nn (maskBytes l 0) ip = true.
Proof.
  revert nn ip. induction l as [|l IH]; intros [|a nn] [|b ip]; simpl; try done.
  rewrite IH, andb_true_r. apply (eqb_masked 0); [lia | done].
Qed.

(** The comparison loop of [Contains] decides agreement on the leading
    bits. *)
Lemma sameUnderMask_bits nn ip n :
  length nn = length ip ->
  sameUnderMask nn (maskBytes (length nn) n) ip = true
  <-> take n (bitsOf ip) = take n (bitsOf nn).
Proof.
  revert ip n. induction nn as [|a nn IH]; intros [|b ip] n Hl;
    simpl in Hl; try discriminate.
  { simpl. by destruct n. }
  injection Hl as Hl.
  change (length (a :: nn)) with (S (length nn)). rewrite maskBytes_S.
  change (bitsOf (b :: ip)) with (bits8 b ++ bitsOf ip).
  change (bitsOf (a :: nn)) with (bits8 a ++ bitsOf nn).
  destruct (8 <=? n)%nat eqn:E; rewrite sameUnderMask_cons.
  - apply Nat.leb_le in E.
    rewrite andb_true_iff, eqb_masked_ff, (IH ip (n - 8) Hl).
    rewrite !take_app_ge by (rewrite bits8_length; lia).
    rewrite !bits8_length. split.
    + intros [-> ->]. done.
    + intros H. apply app_inj_1 in H as [? ?]; done.
  - apply Nat.leb_gt in E.
    rewrite sameUnderMask_zero, andb_true_r.
    rewrite (eqb_masked n a b E).
    rewrite !take_app_le by (rewrite bits8_length; lia).
    split; intros H; by rewrite H.
Qed.

Lemma maskBytes_length l n : length (maskBytes l n) = l.
Proof.
  revert n. induction l as [|l IH]; intros n; [done|].
  rewrite maskBytes_S. destruct (8 <=? n)%nat; simpl; by rewrite IH.
Qed.

Lemma bytesEqual_eq x y : bytesEqual x y = true <-> x = y.
Proof.
  revert y. induction x as [|a x IH]; intros [|b y]; simpl; try done.
  rewrite andb_true_iff, IH. split.
  - intros [H ->]. apply Byte.byte_dec_bl in H. by subst.
  - intros H. injection H as -> ->. split; [by apply Byte.byte_dec_lb | done].
Qed.

(** *** [To4] on slices of 4 and of 16 bytes *)

Lemma To4_4 a : length a = 4 -> To4 (Some a) = Some a.
Proof. intros H. unfold To4. by rewrite H. Qed.

Lemma To16_16 a : length a = 16 -> To16 (Some a) = Some a.
Proof. intros H. unfold To16. by rewrite H. Qed.

Ltac bytes16 a :=
  do 16 (destruct a as [|? a]; [discriminate|]);
  destruct a; [|discriminate].

Lemma To4_16 a :
  length a = 16 ->
  To4 (Some a)
  = if bytesEqual (take 12 a) v4InV6Prefix
    then Some (drop 12 a) else None.
Proof.
  intros H. bytes16 a. unfold To4, isZeros. simpl.
  repeat match goal with
         | |- context [Byte.eqb ?x ?y] =>
             destruct (Byte.eqb x y); simpl; [|reflexivity]
         end.
  reflexivity.
Qed.

(** A slice of 16 bytes is IPv4-mapped when it starts with the twelve
    bytes [v4InV6Prefix], that is when it is inside [::ffff:0:0/96]. *)
Lemma inside_v4mapped a :
  length a = 16 ->
  inside v4mapped a <-> bytesEqual (take 12 a) v4InV6Prefix = true.
Proof.
  intros Hl. rewrite bytesEqual_eq. unfold inside.
  change (plen v4mapped) with (8 * 12).
  rewrite !bitsOf_take.
  change (take 12 (base v4mapped)) with v4InV6Prefix.
  split.
  - intros [_ H]. by apply bitsOf_inj.
  - intros ->. by split.
Qed.

Lemma To4_mapped a :
  length a = 16 -> inside v4mapped a -> To4 (Some a) = Some (drop 12 a).
Proof.
  intros Hl Hin. rewrite To4_16 by done.
  apply inside_v4mapped in Hin; [|done]. by rewrite Hin.
Qed.

Lemma To4_not_mapped a :
  length a = 16 -> ~ inside v4mapped a -> To4 (Some a) = None.
Proof.
  intros Hl Hin. rewrite To4_16 by done.
  destruct (bytesEqual (take 12 a) v4InV6Prefix) eqn:E; [|done].
  exfalso. by apply Hin, inside_v4mapped.
Qed.

(** *** [Contains] on the networks of the tables *)

Lemma networkNumberAndMask_v4 p :
  length (base p) = 4 ->
  networkNumberAndMask (netOf p)
  = (Some (base p), Some (maskBytes (length (base p)) (plen p))).
Proof.
  intros Hp. unfold networkNumberAndMask, netOf.
  cbn [IPNet_IP IPNet_Mask]. rewrite (To4_4 _ Hp). cbn [len].
  rewrite maskBytes_length, Hp. reflexivity.
Qed.

Lemma networkNumberAndMask_v6 p :
  length (base p) = 16 -> To4 (Some (base p)) = None ->
  networkNumberAndMask (netOf p)
  = (Some (base p), Some (maskBytes (length (base p)) (plen p))).
Proof.
  intros Hp Tp. unfold networkNumberAndMask, netOf.
  cbn [IPNet_IP IPNet_Mask]. rewrite Tp. cbn [len].
  rewrite maskBytes_length, Hp. reflexivity.
Qed.

Lemma Contains_same_length p a :
  networkNumberAndMask (netOf p)
  = (Some (base p), Some (maskBytes (length (base p)) (plen p))) ->
  To4 (Some a) = Some a \/ To4 (Some a) = None ->
  length a = length (base p) ->
  Contains (netOf p) (Some a) = true <-> inside p a.
Proof.
  intros Hn Ta Hl. unfold Contains. rewrite Hn.
  assert (E : match To4 (Some a) with Some x => Some x | None => Some a end
              = Some a) by (destruct Ta as [-> | ->]; reflexivity).
  rewrite E. cbn [len default]. rewrite Hl, Nat.eqb_refl. cbn [negb].
  unfold id.
  rewrite sameUnderMask_bits by congruence.
  unfold inside. tauto.
Qed.

Lemma Contains_v4 p a :
  length (base p) = 4 -> length a = 4 ->
  Contains (netOf p) (Some a) = true <-> inside p a.
Proof.
  intros Hp Ha. apply Contains_same_length.
  - by apply networkNumberAndMask_v4.
  - left. by apply To4_4.
  - congruence.
Qed.

Lemma Contains_v6 p a :
  length (base p) = 16 -> length a = 16 ->
  To4 (Some (base p)) = None -> To4 (Some a) = None ->
  Contains (netOf p) (Some a) = true <-> inside p a.
Proof.
  intros Hp Ha Tp Ta. apply Contains_same_length.
  - by apply networkNumberAndMask_v6.
  - by right.
  - congruence.
Qed.

Lemma Contains_v4mapped a :
  length a = 16 -> To4 (Some a) = None ->
  Contains (netOf v4mapped) (Some a) = false.
Proof.
  intros Ha Ta. unfold Contains.
  change (networkNumberAndMask (netOf v4mapped))
    with (Some [x00; x00; x00; x00], Some [x00; x00; x00; x00]).
  rewrite Ta. cbn [len]. by rewrite Ha.
Qed.

(** *** The loop of [IsLocalIP] *)

Lemma anyContains_netsOf cidrs ip :
  anyContains cidrs ip = existsb (fun n => Contains n ip) (netsOf cidrs).
Proof.
  induction cidrs as [|c cidrs IH]; simpl; [done|].
  destruct (ParseCIDR c) as [[? inet]|]; simpl; [|done].
  rewrite IH. by destruct (Contains inet ip).
Qed.

Lemma tables_denote :
  netsOf nonGlobalIPv4CIDRs = map netOf ipv4Prefixes
  /\ netsOf nonGlobalIPv6CIDRs = map netOf ipv6Prefixes.
Proof. split; vm_compute; reflexivity. Qed.

Lemma existsb_netOf (l : list prefix) ip :
  existsb (fun n => Contains n ip) (map netOf l) = true
  <-> exists p, In p l /\ Contains (netOf p) ip = true.
Proof.
  rewrite existsb_exists. split.
  - intros (n & Hn & Hc). apply in_map_iff in Hn as (p & <- & Hp). eauto.
  - intros (p & Hp & Hc). exists (netOf p). split; [|done].
    apply in_map_iff. eauto.
Qed.

Lemma ipv4Prefixes_length p : In p ipv4Prefixes -> length (base p) = 4.
Proof.
  simpl. intros H. repeat (destruct H as [<-|H]; [reflexivity|]). done.
Qed.

Lemma ipv6Prefixes_length p : In p ipv6Prefixes -> length (base p) = 16.
Proof.
  simpl. intros H. repeat (destruct H as [<-|H]; [reflexivity|]). done.
Qed.

Lemma ipv6Prefixes_To4 p :
  In p ipv6Prefixes -> p = v4mapped \/ To4 (Some (base p)) = None.
Proof.
  simpl. intros H.
  repeat (destruct H as [<-|H]; [(by left) || (by right)|]). done.
Qed.

(** The 4-byte case of [IsLocalIP]. *)
Lemma IsLocalIP_4 a :
  length a = 4 ->
  IsLocalIP (Some a) = true <-> exists p, In p ipv4Prefixes /\ inside p a.
Proof.
  intros Ha. unfold IsLocalIP, IsLocalIP_on. rewrite (To4_4 _ Ha).
  rewrite anyContains_netsOf, (proj1 tables_denote), existsb_netOf.
  split; intros (p & Hp & H); exists p; split; try done.
  - apply Contains_v4 in H; auto using ipv4Prefixes_length.
  - apply Contains_v4; auto using ipv4Prefixes_length.
Qed.

(** The IPv4-mapped case: the address is judged as the IPv4 address in
    its last four bytes. *)
Lemma IsLocalIP_mapped a :
  length a = 16 -> inside v4mapped a ->
  IsLocalIP (Some a) = IsLocalIP (Some (drop 12 a)).
Proof.
  intros Ha Hin. unfold IsLocalIP, IsLocalIP_on.
  rewrite (To4_mapped _ Ha Hin), To4_4; [done|].
  rewrite length_drop. lia.
Qed.

(** The case of 16 bytes that are not IPv4-mapped. *)
Lemma IsLocalIP_16 a :
  length a = 16 -> ~ inside v4mapped a ->
  IsLocalIP (Some a) = true <-> exists p, In p ipv6Prefixes /\ inside p a.
Proof.
  intros Ha Hin. pose proof (To4_not_mapped _ Ha Hin) as Ta.
  unfold IsLocalIP, IsLocalIP_on. rewrite Ta, (To16_16 _ Ha).
  rewrite anyContains_netsOf, (proj2 tables_denote), existsb_netOf.
  split; intros (p & Hp & H); exists p; split; try done.
  - destruct (ipv6Prefixes_To4 p Hp) as [->|Tp].
    + by rewrite Contains_v4mapped in H.
    + apply Contains_v6 in H; auto using ipv6Prefixes_length.
  - destruct (ipv6Prefixes_To4 p Hp) as [->|Tp]; [done|].
    apply Contains_v6; auto using ipv6Prefixes_length.
Qed.

(** Two prefixes that share an address agree on the bits both fix. *)
Lemma inside_both p q a :
  inside p a -> inside q a ->
  take (plen p `min` plen q) (bitsOf (base p))
  = take (plen p `min` plen q) (bitsOf (base q)).
Proof.
  intros [_ Hp] [_ Hq].
  transitivity (take (plen p `min` plen q) (bitsOf a)).
  - rewrite Nat.min_comm, <- !take_take. by rewrite Hp.
  - rewrite <- !take_take. by rewrite Hq.
Qed.

Lemma ipv6Prefixes_apart p a :
  In p ipv6Prefixes -> p <> v4mapped -> inside p a -> ~ inside v4mapped a.
Proof.
  simpl. intros H Hne Hp Hm. pose proof (inside_both _ _ _ Hp Hm) as E.
  repeat (destruct H as [<-|H];
          [first [ by apply Hne | vm_compute in E; discriminate E ]|]).
  done.
Qed.

(** *** The claims on the classifier *)

(** C9: [IsLocalIP(nil)] returns true, and would with any two tables:
    the nil test comes before the tables are read. The classifier is a
    function of the address alone, so this holds whatever the state of a
    handler. *)
Theorem IsLocalIP_nil :
  IsLocalIP None = true
  /\ forall v4 v6, IsLocalIP_on v4 v6 None = true.
Proof.
  split.
  - unfold IsLocalIP. reflexivity.
  - intros v4 v6. reflexivity.
Qed.

(** C2, as amended: for every entry of the IPv4 table and every address
    inside its prefix, and for every entry of the IPv6 table other than
    [::ffff:0:0/96] and every address inside its prefix, [IsLocalIP]
    returns true; for an address of 4 bytes outside all IPv4 entries, and
    for one of 16 bytes outside all IPv6 entries, it returns false. An
    address inside [::ffff:0:0/96] is judged as the IPv4 address held in
    its last four bytes. *)
Theorem IsLocalIP_tables (a : list byte) :
  (forall p, In p ipv4Prefixes -> inside p a -> IsLocalIP (Some a) = true)
  /\ (forall p, In p ipv6Prefixes -> p <> v4mapped -> inside p a ->
      IsLocalIP (Some a) = true)
  /\ (length a = 4 -> (forall p, In p ipv4Prefixes -> ~ inside p a) ->
      IsLocalIP (Some a) = false)
  /\ (length a = 16 -> (forall p, In p ipv6Prefixes -> ~ inside p a) ->
      IsLocalIP (Some a) = false)
  /\ (inside v4mapped a ->
      IsLocalIP (Some a) = IsLocalIP (Some (drop 12 a))).
Proof.
  repeat split.
  - intros p Hp Hin.
    assert (Ha : length a = 4).
    { destruct Hin as [-> _]. by apply ipv4Prefixes_length. }
    apply IsLocalIP_4; eauto.
  - intros p Hp Hne Hin.
    assert (Ha : length a = 16).
    { destruct Hin as [-> _]. by apply ipv6Prefixes_length. }
    apply IsLocalIP_16; eauto using ipv6Prefixes_apart.
  - intros Ha Hout. apply not_true_is_false. intros H.
    apply IsLocalIP_4 in H as (p & Hp & Hin); [|done]. by apply (Hout p).
  - intros Ha Hout. apply not_true_is_false. intros H.
    apply IsLocalIP_16 in H as (p & Hp & Hin); [by apply (Hout p)|done|].
    apply Hout. simpl. tauto.
  - intros Hin. apply IsLocalIP_mapped; [|done]. by destruct Hin as [-> _].
Qed.

Lemma checkCIDRs_spec cidrs :
  match checkCIDRs cidrs with
  | Completed =>
      Forall (fun c => exists ip inet, ParseCIDR c = inl (ip, inet)) cidrs
  | Panic msg =>
      exists c err,
        In c cidrs /\ ParseCIDR c = inr err
        /\ msg = ("unparseable CIDR '" ++ c ++ "': " ++ Error err)%string
  end.
Proof.
  induction cidrs as [|c cidrs IH]; simpl; [constructor|].
  destruct (ParseCIDR c) as [[ip inet]|err] eqn:E.
  - destruct (checkCIDRs cidrs).
    + constructor; eauto.
    + destruct IH as (c' & err & Hin & Hp & ->). exists c', err. auto.
  - exists c, err. auto.
Qed.

Lemma checkCIDRs_panics cidrs c err :
  In c cidrs -> ParseCIDR c = inr err ->
  exists msg, checkCIDRs cidrs = Panic msg.
Proof.
  intros Hin Hp. pose proof (checkCIDRs_spec cidrs) as H.
  destruct (checkCIDRs cidrs); [|eauto].
  rewrite List.Forall_forall in H. destruct (H c Hin) as (? & ? & E).
  congruence.
Qed.

Lemma netsOf_all cidrs :
  Forall (fun c => exists ip inet, ParseCIDR c = inl (ip, inet)) cidrs ->
  length (netsOf cidrs) = length cidrs.
Proof.
  induction 1 as [|c cidrs (ip & inet & E) _ IH]; simpl; [done|].
  rewrite E. simpl. by rewrite IH.
Qed.

(** C7: [init] parses every string of both tables and panics at the
    first one that is not a valid prefix; when it completes, every string
    of both tables parses, so the loops of [IsLocalIP], which parse the
    same strings, never take their error branch and skip no entry. The
    package's own two tables pass. *)
Theorem init_fail_fast :
  (forall v4 v6,
      match init_on v4 v6 with
      | Completed =>
          Forall (fun c => exists ip inet, ParseCIDR c = inl (ip, inet))
            (v4 ++ v6)
          /\ length (netsOf v4) = length v4
          /\ length (netsOf v6) = length v6
      | Panic msg =>
          exists c err,
            In c (v4 ++ v6) /\ ParseCIDR c = inr err
            /\ msg = ("unparseable CIDR '" ++ c ++ "': " ++ Error err)%string
      end)
  /\ (forall v4 v6 c err,
        In c (v4 ++ v6) -> ParseCIDR c = inr err ->
        exists msg, init_on v4 v6 = Panic msg)
  /\ init = Completed
  /\ Forall (fun c => exists ip inet, ParseCIDR c = inl (ip, inet))
       (nonGlobalIPv4CIDRs ++ nonGlobalIPv6CIDRs).
Proof.
  assert (Hall : forall v4 v6,
             match init_on v4 v6 with
             | Completed =>
                 Forall (fun c => exists ip inet, ParseCIDR c = inl (ip, inet))
                   (v4 ++ v6)
                 /\ length (netsOf v4) = length v4
                 /\ length (netsOf v6) = length v6
             | Panic msg =>
                 exists c err,
                   In c (v4 ++ v6) /\ ParseCIDR c = inr err
                   /\ msg = ("unparseable CIDR '" ++ c ++ "': "
                             ++ Error err)%string
             end).
  { intros v4 v6. unfold init_on.
    pose proof (checkCIDRs_spec (v4 ++ v6)) as H.
    destruct (checkCIDRs (v4 ++ v6)); [|done].
    split; [done|]. apply Forall_app in H as [H4 H6].
    split; by apply netsOf_all. }
  assert (Hinit : init = Completed) by (vm_compute; reflexivity).
  split; [exact Hall|]. split; [|split; [exact Hinit|]].
  - intros v4 v6 c err. apply checkCIDRs_panics.
  - specialize (Hall nonGlobalIPv4CIDRs nonGlobalIPv6CIDRs).
    fold init in Hall. rewrite Hinit in Hall. apply Hall.
Qed.

End iputils_facts.

(** * Properties of the overrides *)

Module overrides_facts.
Import geoipdb.

Ltac run :=
  unfold OverridesLookup, OverridesSet, OverridesRemove, OverridesList,
    bind, ret, cache_purgeASN, getOverrides, onStore; simpl.

Lemma nextCall_docs c f c' :
  mgo.nextCall c = (f, c') -> mgo.docs c' = mgo.docs c.
Proof.
  unfold mgo.nextCall. destruct (mgo.faults c); intros E; by inversion E.
Qed.

Lemma nextCall_noFault n c :
  mgo.noFault (S n) c ->
  exists c', mgo.nextCall c = (None, c') /\ mgo.docs c' = mgo.docs c
             /\ mgo.noFault n c'.
Proof.
  unfold mgo.noFault, mgo.nextCall. destruct c as [d fs]; simpl.
  destruct fs as [|f fs]; simpl; intros H.
  - eexists; repeat split; eauto. destruct n; constructor.
  - inversion H; subst. eexists; repeat split; eauto.
Qed.

Lemma purgeASN_lookup asn (ca : gmap string string) :
  purgeASN asn ca !! asn = None.
Proof. unfold purgeASN. by rewrite lookup_delete_eq. Qed.

Lemma purgeASN_other asn k (ca : gmap string string) :
  k <> asn -> purgeASN asn ca !! k = ca !! k.
Proof. intros H. unfold purgeASN. by rewrite lookup_delete_ne. Qed.

Section Facts.
Variable reASN : string -> bool.

(** Both mutating methods start with the purge; whatever follows is a
    call on the store. *)
Lemma OverridesSet_first_call asn descr h :
  exists r h' rest,
    OverridesSet reASN asn descr h = (r, h', CachePurgeASN asn :: rest)
    /\ cache h' = purgeASN asn (cache h)
    /\ forallb isStoreCall rest = true.
Proof.
  run. destruct (overrides h) as [c|]; simpl.
  - destruct (reASN asn); simpl.
    + destruct (mgo.UpsertIdSetName asn descr c) as [[e|] c']; simpl;
        do 3 eexists; repeat split; reflexivity.
    + do 3 eexists; repeat split; reflexivity.
  - do 3 eexists; repeat split; reflexivity.
Qed.

Lemma OverridesRemove_first_call asn h :
  exists r h' rest,
    OverridesRemove asn h = (r, h', CachePurgeASN asn :: rest)
    /\ cache h' = purgeASN asn (cache h)
    /\ forallb isStoreCall rest = true.
Proof.
  run. destruct (overrides h) as [c|]; simpl.
  - destruct (mgo.RemoveId asn c) as [[[|m]|] c']; simpl;
      do 3 eexists; repeat split; reflexivity.
  - do 3 eexists; repeat split; reflexivity.
Qed.

(** The three store methods when the transport lets them through. *)
Lemma OverridesSet_ok n h c asn d :
  overrides h = Some c -> reASN asn = true -> mgo.noFault (S n) c ->
  exists c' calls,
    OverridesSet reASN asn d h
    = (None, {| cache := purgeASN asn (cache h); overrides := Some c' |},
       calls)
    /\ mgo.docs c' = <[asn := d]> (mgo.docs c) /\ mgo.noFault n c'.
Proof.
  intros Hc Hre Hf. run. rewrite Hc; simpl. rewrite Hre; simpl.
  unfold mgo.UpsertIdSetName.
  destruct (nextCall_noFault _ _ Hf) as (c1 & -> & Hd & Hf1); simpl.
  do 2 eexists. split; [reflexivity|]. simpl. by rewrite Hd.
Qed.

Lemma OverridesRemove_ok n h c asn :
  overrides h = Some c -> mgo.noFault (S n) c ->
  exists c' calls,
    OverridesRemove asn h
    = (None, {| cache := purgeASN asn (cache h); overrides := Some c' |},
       calls)
    /\ mgo.docs c' = delete asn (mgo.docs c) /\ mgo.noFault n c'.
Proof.
  intros Hc Hf. run. rewrite Hc; simpl.
  unfold mgo.RemoveId.
  destruct (nextCall_noFault _ _ Hf) as (c1 & -> & Hd & Hf1); simpl.
  destruct (mgo.docs c1 !! asn) as [x|] eqn:E; simpl.
  - do 2 eexists. split; [reflexivity|]. simpl. by rewrite Hd.
  - do 2 eexists. split; [reflexivity|]. split; [|done].
    rewrite <- Hd. symmetry. by apply delete_id.
Qed.

Lemma OverridesLookup_ok h c asn :
  overrides h = Some c -> mgo.noFault 1 c ->
  exists h' calls,
    OverridesLookup asn h
    = (match mgo.docs c !! asn with
       | Some d => (d, None)
       | None => ("", Some OverridesAsnNotFoundError)
       end, h', calls).
Proof.
  intros Hc Hf. run. rewrite Hc; simpl.
  unfold mgo.FindIdOne.
  destruct (nextCall_noFault _ _ Hf) as (c1 & -> & Hd & Hf1); simpl.
  rewrite Hd. destruct (mgo.docs c !! asn); simpl; eauto.
Qed.

(** C1, as amended: for every identifier that does not match the ASN
    syntax, [OverridesSet] on a handler with a configured store fails
    with [OverridesMalformedAsnError] (with a nil collection: with
    [OverridesNilCollectionError]); the store is not called and keeps
    its state, no record is created or updated; the one side effect is
    the purge of the cache entry of that identifier, made before the
    validation; every other cache entry is kept. *)
Theorem OverridesSet_malformed h asn descr :
  reASN asn = false ->
  OverridesSet reASN asn descr h
  = (Some (match overrides h with
           | Some _ => OverridesMalformedAsnError
           | None => OverridesNilCollectionError
           end),
     {| cache := purgeASN asn (cache h); overrides := overrides h |},
     [CachePurgeASN asn])
  /\ (forall k, k <> asn -> purgeASN asn (cache h) !! k = cache h !! k)
  /\ purgeASN asn (cache h) !! asn = None.
Proof.
  intros Hre. split; [|split].
  - run. destruct (overrides h); simpl; [|reflexivity].
    rewrite Hre. reflexivity.
  - intros k Hk. by apply purgeASN_other.
  - apply purgeASN_lookup.
Qed.

(** C3: when [OverridesSet(k, v)] or [OverridesRemove(k)] returns
    without error, its first call was the purge of the cache entry of
    [k], every later call is a call on the store, and the cache it
    leaves has no entry for [k]: a later read of the cache for [k]
    cannot return a value put there before the mutation. *)
Theorem purge_then_store k v h h' calls :
  OverridesSet reASN k v h = (None, h', calls)
  \/ OverridesRemove k h = (None, h', calls) ->
  cache h' !! k = None
  /\ exists rest, calls = CachePurgeASN k :: rest
                  /\ forallb isStoreCall rest = true.
Proof.
  intros [Hrun|Hrun].
  - destruct (OverridesSet_first_call k v h)
      as (r & h1 & rest & E & Hc & Hs).
    rewrite E in Hrun. inversion Hrun; subst. split.
    + rewrite Hc. apply purgeASN_lookup.
    + by exists rest.
  - destruct (OverridesRemove_first_call k h)
      as (r & h1 & rest & E & Hc & Hs).
    rewrite E in Hrun. inversion Hrun; subst. split.
    + rewrite Hc. apply purgeASN_lookup.
    + by exists rest.
Qed.

(** C4: round trip. For an identifier of ASN syntax, a configured
    store and a transport that lets two calls through,
    [OverridesSet(id, d)] returns no error and the [OverridesLookup(id)]
    that follows returns [d] and no error. *)
Theorem Set_then_Lookup h c asn d :
  overrides h = Some c ->
  reASN asn = true ->
  mgo.noFault 2 c ->
  exists h1 calls1 h2 calls2,
    OverridesSet reASN asn d h = (None, h1, calls1)
    /\ OverridesLookup asn h1 = ((d, None), h2, calls2).
Proof.
  intros Hc Hre Hf.
  destruct (OverridesSet_ok 1 h c asn d Hc Hre Hf)
    as (c1 & calls1 & E1 & Hd1 & Hf1).
  destruct (OverridesLookup_ok
              {| cache := purgeASN asn (cache h); overrides := Some c1 |}
              c1 asn eq_refl Hf1)
    as (h2 & calls2 & E2).
  rewrite Hd1, lookup_insert_eq in E2.
  do 4 eexists. split; eassumption.
Qed.

(** C5: with a configured store, [OverridesRemove(id)] on an identifier
    without a record returns no error and leaves the records as they
    are; the error it returns is nil exactly when the driver returned
    nil or [ErrNotFound], any other error of the driver comes back
    wrapped; and after [OverridesSet(id, d)] and [OverridesRemove(id)],
    [OverridesLookup(id)] fails with [OverridesAsnNotFoundError]. *)
Theorem Remove_idempotent h c asn :
  overrides h = Some c ->
  (mgo.noFault 1 c -> mgo.docs c !! asn = None ->
   exists c' calls,
     OverridesRemove asn h
     = (None,
        {| cache := purgeASN asn (cache h); overrides := Some c' |},
        calls)
     /\ mgo.docs c' = mgo.docs c)
  /\ (forall e c', mgo.RemoveId asn c = (e, c') ->
      exists calls,
        OverridesRemove asn h
        = (match e with
           | None | Some mgo.ErrNotFound => None
           | Some (mgo.Failure msg) =>
               Some (Errorf ("cannot remove override: " ++ msg))
           end,
           {| cache := purgeASN asn (cache h); overrides := Some c' |},
           calls))
  /\ (forall d, reASN asn = true -> mgo.noFault 3 c ->
      exists h1 calls1 h2 calls2 h3 calls3,
        OverridesSet reASN asn d h = (None, h1, calls1)
        /\ OverridesRemove asn h1 = (None, h2, calls2)
        /\ OverridesLookup asn h2
           = (("", Some OverridesAsnNotFoundError), h3, calls3)).
Proof.
  intros Hc. split; [|split].
  - intros Hf Hnone.
    destruct (OverridesRemove_ok 0 h c asn Hc Hf)
      as (c1 & calls & E & Hd & _).
    exists c1, calls. split; [done|]. rewrite Hd. by apply delete_id.
  - intros e c' E. run. rewrite Hc; simpl. rewrite E.
    destruct e as [[|msg]|]; simpl; eauto.
  - intros d Hre Hf.
    destruct (OverridesSet_ok 2 h c asn d Hc Hre Hf)
      as (c1 & calls1 & E1 & Hd1 & Hf1).
    destruct (OverridesRemove_ok 1
                {| cache := purgeASN asn (cache h); overrides := Some c1 |}
                c1 asn eq_refl Hf1)
      as (c2 & calls2 & E2 & Hd2 & Hf2).
    simpl in E2.
    destruct (OverridesLookup_ok
                {| cache := purgeASN asn (purgeASN asn (cache h));
                   overrides := Some c2 |}
                c2 asn eq_refl Hf2)
      as (h3 & calls3 & E3).
    rewrite Hd2, lookup_delete_eq in E3.
    do 6 eexists. repeat split; eassumption.
Qed.

(** C6: on a handler with a nil collection each of [OverridesLookup],
    [OverridesSet], [OverridesRemove] and [OverridesList] returns
    [OverridesNilCollectionError], for every input and every state of
    the cache. *)
Theorem unconfigured_store ca asn descr :
  let h := {| cache := ca; overrides := None |} in
  (OverridesLookup asn h).1.1 = ("", Some OverridesNilCollectionError)
  /\ (OverridesSet reASN asn descr h).1.1
     = Some OverridesNilCollectionError
  /\ (OverridesRemove asn h).1.1 = Some OverridesNilCollectionError
  /\ (OverridesList h).1.1 = (None, Some OverridesNilCollectionError).
Proof. repeat split. Qed.

(** C8: when [OverridesList] returns no error the slice it returns is
    not nil; it has one element per record of the store, and is the
    empty slice when the store has no record. With a configured store
    and a transport that lets the call through it does return so. *)
Theorem OverridesList_not_nil h :
  (forall sl h' calls,
      OverridesList h = ((sl, None), h', calls) ->
      exists l c,
        sl = Some l
        /\ overrides h = Some c
        /\ l = map (fun r => {| Asn := r.1; Name := r.2 |})
                 (map_to_list (mgo.docs c))
        /\ length l = size (mgo.docs c)
        /\ (mgo.docs c = ∅ -> l = []))
  /\ (forall c, overrides h = Some c -> mgo.noFault 1 c ->
      exists l h' calls,
        OverridesList h = ((Some l, None), h', calls)).
Proof.
  split.
  - intros sl h' calls. run.
    destruct (overrides h) as [c|] eqn:Hc; simpl; [|discriminate].
    unfold mgo.FindAll.
    destruct (mgo.nextCall c) as [[msg|] c1] eqn:En; simpl;
      [discriminate|].
    rewrite (nextCall_docs _ _ _ En). intros E.
    assert (Hsl : sl = Some (map (fun r => {| Asn := r.1; Name := r.2 |})
                               (map_to_list (mgo.docs c)))).
    { destruct (map_to_list (mgo.docs c)) as [|r rows]; simpl in *;
        inversion E; done. }
    eexists _, c. split; [exact Hsl|].
    split; [done|]. split; [done|]. split.
    + by rewrite length_map, length_map_to_list.
    + intros ->. by rewrite map_to_list_empty.
  - intros c Hc Hf. run. rewrite Hc; simpl. unfold mgo.FindAll.
    destruct (nextCall_noFault _ _ Hf) as (c1 & -> & Hd & _); simpl.
    destruct (map_to_list (mgo.docs c1)); simpl; eauto.
Qed.

(** C10: [OverridesSet] and [OverridesRemove] start with the purge of
    the cache entry of the given ASN, on every handler; on a handler
    with a nil collection that purge is all they do, and
    [OverridesSet] then returns [OverridesNilCollectionError] for every
    identifier, of ASN syntax or not: the nil check comes before the
    validation. *)
Theorem purge_comes_first asn descr :
  (forall ca,
      OverridesSet reASN asn descr {| cache := ca; overrides := None |}
      = (Some OverridesNilCollectionError,
         {| cache := purgeASN asn ca; overrides := None |},
         [CachePurgeASN asn])
      /\ OverridesRemove asn {| cache := ca; overrides := None |}
         = (Some OverridesNilCollectionError,
            {| cache := purgeASN asn ca; overrides := None |},
            [CachePurgeASN asn]))
  /\ (forall h, exists r h' rest,
        OverridesSet reASN asn descr h = (r, h', CachePurgeASN asn :: rest)
        /\ forallb isStoreCall rest = true)
  /\ (forall h, exists r h' rest,
        OverridesRemove asn h = (r, h', CachePurgeASN asn :: rest)
        /\ forallb isStoreCall rest = true).
Proof.
  split; [|split].
  - intros ca. split; reflexivity.
  - intros h. destruct (OverridesSet_first_call asn descr h)
      as (r & h' & rest & E & _ & Hs). eauto 6.
  - intros h. destruct (OverridesRemove_first_call asn h)
      as (r & h' & rest & E & _ & Hs). eauto 6.
Qed.

End Facts.

End overrides_facts.
(** * The theorems at concrete inputs *)

Module runs.
Import net iputils prefixes geoipdb iputils_facts overrides_facts.
Local Open Scope list_scope.

(** C1: counterexample. ["bogus"] is no ASN; the handler has a store and
    a cache entry for it. [OverridesSet] returns
    [OverridesMalformedAsnError], yet it has called the purge and the
    cache entry is gone: the state is not the one before the call. And on
    a handler with a nil collection the error is not
    [OverridesMalformedAsnError]. *)
Lemma OverridesSet_malformed_purges :
  asDigits "bogus" = false
  /\ cache staleHandler !! "bogus" = Some "stale"
  /\ (exists h',
         OverridesSet asDigits "bogus" "x" staleHandler
         = (Some OverridesMalformedAsnError, h', [CachePurgeASN "bogus"])
         /\ cache h' !! "bogus" = None
         /\ h' <> staleHandler)
  /\ (OverridesSet asDigits "bogus" "x"
        {| cache := ∅; overrides := None |}).1.1
     = Some OverridesNilCollectionError.
Proof.
  split; [reflexivity|]. split; [reflexivity|]. split; [|reflexivity].
  eexists. split; [reflexivity|]. split; [reflexivity|].
  intros E. apply (f_equal (fun h => cache h !! "bogus")) in E.
  vm_compute in E. discriminate E.
Qed.

Lemma OverridesSet_malformed_witness :
  asDigits "bogus" = false
  /\ OverridesSet asDigits "bogus" "x" staleHandler
     = (Some OverridesMalformedAsnError,
        {| cache := purgeASN "bogus" (cache staleHandler);
           overrides := overrides staleHandler |},
        [CachePurgeASN "bogus"]).
Proof.
  split; [reflexivity|].
  exact (proj1 (OverridesSet_malformed asDigits staleHandler "bogus" "x"
                  eq_refl)).
Defined.

(** C2: counterexample. [::ffff:8.8.8.8] is inside [::ffff:0:0/96], an
    entry of the IPv6 table, and [IsLocalIP] returns false for it. *)
Lemma IsLocalIP_mapped_global :
  In "::ffff:0:0/96"%string nonGlobalIPv6CIDRs
  /\ In v4mapped ipv6Prefixes
  /\ inside v4mapped (IPv4 x08 x08 x08 x08)
  /\ IsLocalIP (Some (IPv4 x08 x08 x08 x08)) = false.
Proof.
  split; [simpl; tauto|]. split; [simpl; tauto|].
  split; [split; reflexivity|]. vm_compute. reflexivity.
Qed.

Lemma IsLocalIP_tables_witness :
  (inside (v4 127 0 0 0 8) [x7f; x00; x00; x01]
   /\ IsLocalIP (Some [x7f; x00; x00; x01]) = true)
  /\ (length [x08; x08; x08; x08] = 4
      /\ (forall p, In p ipv4Prefixes -> ~ inside p [x08; x08; x08; x08])
      /\ IsLocalIP (Some [x08; x08; x08; x08]) = false).
Proof.
  assert (Hin : inside (v4 127 0 0 0 8) [x7f; x00; x00; x01])
    by (split; reflexivity).
  assert (Hout : forall p, In p ipv4Prefixes ->
                           ~ inside p [x08; x08; x08; x08]).
  { simpl. intros p H [_ E].
    repeat (destruct H as [<-|H]; [vm_compute in E; discriminate E|]).
    exact H. }
  split.
  - split; [exact Hin|].
    apply (proj1 (IsLocalIP_tables [x7f; x00; x00; x01])
             (v4 127 0 0 0 8)); [simpl; tauto | exact Hin].
  - split; [reflexivity|]. split; [exact Hout|].
    apply (proj1 (proj2 (proj2 (IsLocalIP_tables [x08; x08; x08; x08]))));
      [reflexivity | exact Hout].
Defined.

Lemma purge_then_store_witness :
  cache cachedHandler !! "AS15169" = Some "v1"
  /\ OverridesSet asDigits "AS15169" "v2" cachedHandler
     = (None,
        {| cache := purgeASN "AS15169" (cache cachedHandler);
           overrides :=
             Some {| mgo.docs := <["AS15169" := "v2"]> ∅;
                     mgo.faults := [] |} |},
        [CachePurgeASN "AS15169"; StoreUpsertId "AS15169" "v2"])
  /\ purgeASN "AS15169" (cache cachedHandler) !! "AS15169" = None.
Proof.
  split; [reflexivity|].
  assert (E : OverridesSet asDigits "AS15169" "v2" cachedHandler
              = (None,
                 {| cache := purgeASN "AS15169" (cache cachedHandler);
                    overrides :=
                      Some {| mgo.docs := <["AS15169" := "v2"]> ∅;
                              mgo.faults := [] |} |},
                 [CachePurgeASN "AS15169"; StoreUpsertId "AS15169" "v2"]))
    by reflexivity.
  split; [exact E|].
  exact (proj1 (purge_then_store asDigits "AS15169" "v2" cachedHandler
                  _ _ (or_introl E))).
Defined.

Lemma Set_then_Lookup_witness :
  asDigits "AS15169" = true
  /\ exists h1 calls1 h2 calls2,
      OverridesSet asDigits "AS15169" "v2" cachedHandler = (None, h1, calls1)
      /\ OverridesLookup "AS15169" h1 = (("v2"%string, None), h2, calls2).
Proof.
  split; [reflexivity|].
  apply (Set_then_Lookup asDigits cachedHandler emptyStore "AS15169" "v2");
    [reflexivity | reflexivity | constructor].
Defined.

Lemma Remove_idempotent_witness :
  (exists c' calls,
      OverridesRemove "AS15169" cachedHandler
      = (None,
         {| cache := purgeASN "AS15169" (cache cachedHandler);
            overrides := Some c' |}, calls)
      /\ mgo.docs c' = mgo.docs emptyStore)
  /\ (exists h1 calls1 h2 calls2 h3 calls3,
         OverridesSet asDigits "AS15169" "v2" cachedHandler
         = (None, h1, calls1)
         /\ OverridesRemove "AS15169" h1 = (None, h2, calls2)
         /\ OverridesLookup "AS15169" h2
            = ((""%string, Some OverridesAsnNotFoundError), h3, calls3)).
Proof.
  destruct (Remove_idempotent asDigits cachedHandler emptyStore "AS15169"
              eq_refl) as (H1 & _ & H3).
  split.
  - apply H1; [constructor | reflexivity].
  - apply H3; [reflexivity | constructor].
Defined.

Lemma init_fail_fast_witness :
  ParseCIDR "300.1.2.3/8"
  = inr {| Type_ := "CIDR address"; Text := "300.1.2.3/8" |}
  /\ exists msg, init_on ["10.0.0.0/8"; "300.1.2.3/8"]%string [] = Panic msg.
Proof.
  split; [reflexivity|].
  apply (proj1 (proj2 init_fail_fast)
           ["10.0.0.0/8"; "300.1.2.3/8"]%string [] "300.1.2.3/8"
           {| Type_ := "CIDR address"; Text := "300.1.2.3/8" |});
    [simpl; tauto | reflexivity].
Defined.

Lemma OverridesList_not_nil_witness :
  OverridesList cachedHandler = ((Some [], None), cachedHandler, [StoreFind])
  /\ exists l c,
      Some [] = Some l
      /\ overrides cachedHandler = Some c
      /\ l = map (fun r => {| Asn := r.1; Name := r.2 |})
               (map_to_list (mgo.docs c))
      /\ length l = size (mgo.docs c)
      /\ (mgo.docs c = ∅ -> l = []).
Proof.
  split; [reflexivity|].
  exact (proj1 (OverridesList_not_nil cachedHandler) _ _ _ eq_refl).
Defined.

End runs.

(** * Further properties of the classifier *)

Module iputils_more.
Import net iputils prefixes ranges iputils_facts.
Local Open Scope list_scope.

(** The loop of [IsLocalIP] returns true exactly when some string of the
    table parses to a network that contains the address. *)
Lemma anyContains_true cidrs ip :
  anyContains cidrs ip = true
  <-> exists c ip0 inet,
      In c cidrs /\ ParseCIDR c = inl (ip0, inet)
      /\ Contains inet ip = true.
Proof.
  induction cidrs as [|c cidrs IH]; simpl.
  - split; [discriminate | by intros (? & ? & ? & [] & _)].
  - destruct (ParseCIDR c) as [[ip0 inet]|err] eqn:E.
    + destruct (Contains inet ip) eqn:Ec.
      * split; [|done]. intros _. exists c, ip0, inet. auto.
      * rewrite IH. split.
        -- intros (c' & i' & n' & Hin & Hp & Hc). exists c', i', n'. auto.
        -- intros (c' & i' & n' & [<-|Hin] & Hp & Hc);
             [congruence | eauto 6].
    + rewrite IH. split.
      * intros (c' & i' & n' & Hin & Hp & Hc). exists c', i', n'. auto.
      * intros (c' & i' & n' & [<-|Hin] & Hp & Hc);
          [congruence | eauto 6].
Qed.

Lemma anyContains_same cidrs cidrs' ip :
  (forall c, parses c = true -> (In c cidrs <-> In c cidrs')) ->
  anyContains cidrs ip = anyContains cidrs' ip.
Proof.
  intros H. apply eq_true_iff_eq. rewrite !anyContains_true.
  split; intros (c0 & i0 & n0 & Hin & Hp & Hc); exists c0, i0, n0;
    (split; [|done]); apply H; auto; unfold parses; by rewrite Hp.
Qed.

(** X11: a slice that is not nil and has neither 4 nor 16 bytes (the
    empty slice among them) is not local, whatever the tables. *)
Theorem IsLocalIP_other_lengths v4 v6 (a : list byte) :
  length a <> 4 -> length a <> 16 ->
  IsLocalIP_on v4 v6 (Some a) = false /\ IsLocalIP (Some a) = false.
Proof.
  intros H4 H16.
  assert (E4 : To4 (Some a) = None).
  { unfold To4. apply Nat.eqb_neq in H4, H16.
    unfold IPv4len, IPv6len. by rewrite H4, H16. }
  assert (E16 : To16 (Some a) = None).
  { unfold To16. apply Nat.eqb_neq in H4, H16.
    unfold IPv4len, IPv6len. by rewrite H4, H16. }
  unfold IsLocalIP, IsLocalIP_on. by rewrite E4, E16.
Qed.

(** X12: the answer of [IsLocalIP] depends only on which strings that
    parse are in each table: a string that does not parse is skipped as
    if it were not there, and neither the order of the entries nor a
    repeated entry changes the answer. *)
Theorem IsLocalIP_on_same_entries v4 v6 v4' v6' ip :
  (forall c, parses c = true -> (In c v4 <-> In c v4')) ->
  (forall c, parses c = true -> (In c v6 <-> In c v6')) ->
  IsLocalIP_on v4 v6 ip = IsLocalIP_on v4' v6' ip.
Proof.
  intros H4 H6. unfold IsLocalIP_on. destruct ip as [a|]; [|done].
  destruct (To4 (Some a)); [by apply anyContains_same|].
  destruct (To16 (Some a)); [by apply anyContains_same | done].
Qed.

(** The one error of [ParseCIDR] carries the string that was given. *)
Lemma ParseCIDR_error c err :
  ParseCIDR c = inr err -> err = {| Type_ := "CIDR address"; Text := c |}.
Proof.
  unfold ParseCIDR.
  destruct (gostr.byteIndex c "/") as [i|]; [|by intros [= <-]].
  destruct (dtoi _) as [[m j] ok].
  destruct (match parseIPv4 _ with Some _ => _ | None => _ end);
    [|by intros [= <-]].
  destruct (_ || _); [by intros [= <-] | discriminate].
Qed.

(** X15: when [init] panics, the message names the first string, in the
    order IPv4 table then IPv6 table, that does not parse; every string
    before it parses. *)
Theorem init_reports_first v4 v6 msg :
  init_on v4 v6 = Panic msg ->
  exists before c after err,
    v4 ++ v6 = before ++ c :: after
    /\ Forall (fun x => parses x = true) before
    /\ ParseCIDR c = inr err
    /\ msg = ("unparseable CIDR '" ++ c ++ "': invalid CIDR address: "
              ++ c)%string.
Proof.
  unfold init_on. generalize (v4 ++ v6). clear v4 v6.
  intros l. induction l as [|c l IH]; simpl; [discriminate|].
  destruct (ParseCIDR c) as [[ip inet]|err] eqn:E.
  - intros H. destruct (IH H) as (b & c' & a & err & -> & Hb & Hp & Hm).
    exists (c :: b), c', a, err. repeat split; try done.
    constructor; [|done]. unfold parses. by rewrite E.
  - intros H. injection H as <-. exists [], c, l, err.
    repeat split; try done.
    by rewrite (ParseCIDR_error _ _ E).
Qed.

(** *** Comparisons under a mask byte, as ranges of the octet *)

Lemma eqb_to_N a x : Byte.eqb x a = (Byte.to_N a =? Byte.to_N x)%N.
Proof.
  destruct (Byte.eqb x a) eqn:E.
  - apply Byte.byte_dec_bl in E. subst. by rewrite N.eqb_refl.
  - symmetry. apply N.eqb_neq. intros H.
    apply Byte.eqb_false in E. apply E.
    apply (f_equal Byte.of_N) in H. rewrite !Byte.of_to_N in H.
    by injection H.
Qed.

Lemma under_ff x a :
  Byte.eqb (byte_and x xff) (byte_and a xff)
  = (Byte.to_N a =? Byte.to_N x)%N.
Proof. by rewrite !byte_and_ff, eqb_to_N. Qed.

Lemma byte_and_00 a : byte_and a x00 = x00.
Proof. destruct a; reflexivity. Qed.

Lemma under_00 x a : Byte.eqb (byte_and x x00) (byte_and a x00) = true.
Proof. by rewrite !byte_and_00. Qed.

Lemma under_f0_16 a :
  Byte.eqb (byte_and x10 xf0) (byte_and a xf0)
  = ((16 <=? Byte.to_N a) && (Byte.to_N a <=? 31))%N.
Proof. destruct a; reflexivity. Qed.

Lemma under_c0_64 a :
  Byte.eqb (byte_and x40 xc0) (byte_and a xc0)
  = ((64 <=? Byte.to_N a) && (Byte.to_N a <=? 127))%N.
Proof. destruct a; reflexivity. Qed.

Lemma under_fe_18 a :
  Byte.eqb (byte_and x12 xfe) (byte_and a xfe)
  = ((18 <=? Byte.to_N a) && (Byte.to_N a <=? 19))%N.
Proof. destruct a; reflexivity. Qed.

Lemma under_f0_240 a :
  Byte.eqb (byte_and xf0 xf0) (byte_and a xf0)
  = (240 <=? Byte.to_N a)%N.
Proof. destruct a; reflexivity. Qed.

(** X13: for an IPv4 address, given by its four bytes or in the 16-byte
    form [IPv4(a, b, c, d)], [IsLocalIP] is the test of the octets
    against the ranges of the registry: 127/8, 192.168/16, 10/8,
    172.16-31, 0/8, 100.64-127, 169.254/16, 192.0.0/24, 192.0.2/24,
    198.18-19, 198.51.100/24, 203.0.113/24 and 240 and above. The entry
    255.255.255.255/32 adds nothing to the last range. *)
Theorem IsLocalIP_octets a b c d :
  IsLocalIP (Some [a; b; c; d])
  = nonGlobalV4 (Byte.to_N a) (Byte.to_N b) (Byte.to_N c) (Byte.to_N d)
  /\ IsLocalIP (Some (IPv4 a b c d))
     = nonGlobalV4 (Byte.to_N a) (Byte.to_N b) (Byte.to_N c) (Byte.to_N d).
Proof.
  assert (H4 : IsLocalIP (Some [a; b; c; d])
               = nonGlobalV4 (Byte.to_N a) (Byte.to_N b) (Byte.to_N c)
                   (Byte.to_N d)).
  { unfold IsLocalIP, IsLocalIP_on. rewrite To4_4 by done.
    rewrite anyContains_netsOf, (proj1 tables_denote).
    cbv -[byte_and Byte.eqb andb orb nonGlobalV4 Byte.to_N].
    rewrite under_f0_16, under_c0_64, under_fe_18, under_f0_240.
    rewrite ?under_00, ?under_ff, ?andb_true_r.
    cbn [Byte.to_N].
    generalize (Byte.to_N a) (Byte.to_N b) (Byte.to_N c) (Byte.to_N d).
    intros A B C D. unfold nonGlobalV4. cbn [existsb id].
    match goal with
    | |- context [((240 <=? A)%N || (?x || false))] =>
        replace ((240 <=? A)%N || (x || false))
          with ((240 <=? A)%N || false); [reflexivity|]
    end.
    destruct (240 <=? A)%N eqn:E; [reflexivity|].
    apply N.leb_gt in E.
    assert (En : (A =? 255)%N = false) by (apply N.eqb_neq; lia).
    by rewrite En. }
  split; [exact H4|].
  rewrite <- H4. apply (IsLocalIP_mapped (IPv4 a b c d)); [reflexivity|].
  split; reflexivity.
Qed.

Lemma under_fe_252 a :
  Byte.eqb (byte_and xfc xfe) (byte_and a xfe)
  = ((252 <=? Byte.to_N a) && (Byte.to_N a <=? 253))%N.
Proof. destruct a; reflexivity. Qed.

Lemma under_fe_0 a :
  Byte.eqb (byte_and x00 xfe) (byte_and a xfe) = (Byte.to_N a <=? 1)%N.
Proof. destruct a; reflexivity. Qed.

Lemma under_c0_128 a :
  Byte.eqb (byte_and x80 xc0) (byte_and a xc0)
  = ((128 <=? Byte.to_N a) && (Byte.to_N a <=? 191))%N.
Proof. destruct a; reflexivity. Qed.

Lemma Contains_v6_loop p a :
  length (base p) = 16 -> length a = 16 ->
  To4 (Some (base p)) = None -> To4 (Some a) = None ->
  Contains (netOf p) (Some a)
  = sameUnderMask (base p) (maskBytes 16 (plen p)) a.
Proof.
  intros Hp Ha Tp Ta. unfold Contains.
  rewrite (networkNumberAndMask_v6 _ Hp Tp), Ta. cbn [len default].
  rewrite Ha, Hp. reflexivity.
Qed.

(** X14: for an address of 16 bytes that is not IPv4-mapped,
    [IsLocalIP] is the test of the octets against the ranges of the
    registry: [::1], [fc00::/7], [2001::/23], [fe80::/10],
    [2001:db8::/32], [100::/64] and [::]. The entries [2001:2::/48] and
    [2001::/32] add nothing to [2001::/23], and the entry
    [::ffff:0:0/96] is never met. *)
Theorem IsLocalIP_octets6 (a : list byte) :
  length a = 16 -> take 12 a <> v4InV6Prefix ->
  IsLocalIP (Some a) = nonGlobalV6 (map Byte.to_N a).
Proof.
  intros Ha Hm.
  assert (Ta : To4 (Some a) = None).
  { rewrite To4_16 by done.
    destruct (bytesEqual (take 12 a) v4InV6Prefix) eqn:E; [|done].
    by apply bytesEqual_eq in E. }
  unfold IsLocalIP, IsLocalIP_on. rewrite Ta, (To16_16 _ Ha).
  rewrite anyContains_netsOf, (proj2 tables_denote).
  unfold ipv6Prefixes. cbn [map existsb].
  rewrite (Contains_v4mapped _ Ha Ta).
  rewrite !Contains_v6_loop by (done || reflexivity).
  clear Ta Hm. bytes16 a. clear Ha.
  cbv -[byte_and Byte.eqb andb orb nonGlobalV6 Byte.to_N map].
  rewrite under_fe_252, under_fe_0, under_c0_128.
  rewrite ?under_00, ?under_ff, ?andb_true_r.
  cbn [Byte.to_N map].
  generalize (Byte.to_N b) (Byte.to_N b0) (Byte.to_N b1) (Byte.to_N b2)
    (Byte.to_N b3) (Byte.to_N b4) (Byte.to_N b5) (Byte.to_N b6)
    (Byte.to_N b7) (Byte.to_N b8) (Byte.to_N b9) (Byte.to_N b10)
    (Byte.to_N b11) (Byte.to_N b12) (Byte.to_N b13) (Byte.to_N b14).
  intros o0 o1 o2 o3 o4 o5 o6 o7 o8 o9 o10 o11 o12 o13 o14 o15.
  unfold nonGlobalV6. cbn [existsb id startsWith orb].
  rewrite ?andb_true_r, <- ?andb_assoc.
  do 2 f_equal.
  destruct (o0 =? 32)%N; cbn [andb orb]; [|reflexivity].
  destruct (o1 =? 1)%N; cbn [andb orb]; [|reflexivity].
  destruct (o2 =? 0)%N eqn:E2; cbn [andb orb]; [|reflexivity].
  apply N.eqb_eq in E2. subst o2. reflexivity.
Qed.

End iputils_more.

(** * Further properties of the overrides *)

Module overrides_more.
Import geoipdb views overrides_facts.

(** The three outcomes of the calls on a collection. *)
Lemma UpsertIdSetName_cases asn d c :
  (exists c', mgo.UpsertIdSetName asn d c = (None, c')
              /\ mgo.docs c' = <[asn := d]> (mgo.docs c)
              /\ hd None (mgo.faults c) = None)
  \/ (exists msg c', mgo.UpsertIdSetName asn d c = (Some (mgo.Failure msg), c')
                     /\ mgo.docs c' = mgo.docs c
                     /\ hd None (mgo.faults c) = Some msg).
Proof.
  unfold mgo.UpsertIdSetName, mgo.nextCall.
  destruct (mgo.faults c) as [|[msg|] fs]; simpl; eauto 8.
Qed.

Lemma RemoveId_cases asn c :
  (exists c', mgo.RemoveId asn c = (None, c')
              /\ mgo.docs c' = delete asn (mgo.docs c))
  \/ (exists c', mgo.RemoveId asn c = (Some mgo.ErrNotFound, c')
                 /\ mgo.docs c' = mgo.docs c
                 /\ mgo.docs c !! asn = None)
  \/ (exists msg c', mgo.RemoveId asn c = (Some (mgo.Failure msg), c')
                     /\ mgo.docs c' = mgo.docs c).
Proof.
  unfold mgo.RemoveId, mgo.nextCall.
  destruct (mgo.faults c) as [|[msg|] fs]; simpl; eauto 8;
    destruct (mgo.docs c !! asn) eqn:E; simpl; eauto 8.
Qed.

Section More.
Variable reASN : string -> bool.

(** What [OverridesSet] leaves, whatever it returns. *)
Lemma OverridesSet_effect asn d h :
  exists e h' calls,
    OverridesSet reASN asn d h = (e, h', calls)
    /\ cache h' = purgeASN asn (cache h)
    /\ ((e = None /\ reASN asn = true
         /\ docsOf h' = <[asn := d]> (docsOf h)
         /\ is_Some (overrides h))
        \/ (e <> None /\ docsOf h' = docsOf h)).
Proof.
  run. unfold docsOf. destruct (overrides h) as [c|]; simpl.
  - destruct (reASN asn) eqn:Hre; simpl.
    + destruct (UpsertIdSetName_cases asn d c)
        as [(c' & -> & Hd & _)|(msg & c' & -> & Hd & _)]; simpl;
        do 3 eexists; (split; [reflexivity|]); (split; [reflexivity|]);
        simpl; [left | right]; eauto.
    + do 3 eexists. split; [reflexivity|]. split; [reflexivity|].
      right. simpl. eauto.
  - do 3 eexists. split; [reflexivity|]. split; [reflexivity|].
    right. simpl. eauto.
Qed.

(** What [OverridesRemove] leaves, whatever it returns. *)
Lemma OverridesRemove_effect asn h :
  exists e h' calls,
    OverridesRemove asn h = (e, h', calls)
    /\ cache h' = purgeASN asn (cache h)
    /\ ((e = None /\ docsOf h' = delete asn (docsOf h)
         /\ is_Some (overrides h))
        \/ (e <> None /\ docsOf h' = docsOf h)).
Proof.
  run. unfold docsOf. destruct (overrides h) as [c|]; simpl.
  - destruct (RemoveId_cases asn c)
      as [(c' & -> & Hd)|[(c' & -> & Hd & Hn)|(msg & c' & -> & Hd)]];
      simpl; do 3 eexists; (split; [reflexivity|]);
      (split; [reflexivity|]); simpl.
    + left. eauto.
    + left. split; [done|]. split; [|eauto].
      rewrite Hd. symmetry. by apply delete_id.
    + right. eauto.
  - do 3 eexists. split; [reflexivity|]. split; [reflexivity|].
    right. simpl. eauto.
Qed.

(** The reading methods keep the records. *)
Lemma reads_keep_docs asn h :
  docsOf (OverridesLookup asn h).1.2 = docsOf h
  /\ docsOf (OverridesList h).1.2 = docsOf h.
Proof.
  split; run; unfold docsOf;
    destruct (overrides h) as [c|] eqn:Hc; simpl; rewrite ?Hc; try done.
  - unfold mgo.FindIdOne.
    destruct (mgo.nextCall c) as [[msg|] c1] eqn:En; simpl;
      pose proof (nextCall_docs _ _ _ En) as Hd; [done|].
    by destruct (mgo.docs c1 !! asn).
  - unfold mgo.FindAll.
    destruct (mgo.nextCall c) as [[msg|] c1] eqn:En; simpl;
      pose proof (nextCall_docs _ _ _ En) as Hd; [done|].
    by destruct (map_to_list (mgo.docs c1)).
Qed.

(** X1: the two reading methods, [OverridesLookup] and
    [OverridesList], change neither the cache nor the records of the
    store and never call the purge: their calls are at most one call
    on the store. [OverridesLookup] does no validation either: it never
    returns [OverridesMalformedAsnError]. *)
Theorem reads_change_nothing asn h :
  (cache (OverridesLookup asn h).1.2 = cache h
   /\ docsOf (OverridesLookup asn h).1.2 = docsOf h
   /\ ((OverridesLookup asn h).2 = [] \/
       (OverridesLookup asn h).2 = [StoreFindId asn])
   /\ (OverridesLookup asn h).1.1.2 <> Some OverridesMalformedAsnError)
  /\ (cache (OverridesList h).1.2 = cache h
      /\ docsOf (OverridesList h).1.2 = docsOf h
      /\ ((OverridesList h).2 = [] \/ (OverridesList h).2 = [StoreFind])).
Proof.
  split.
  - run. unfold docsOf. destruct (overrides h) as [c|] eqn:Hc; simpl.
    + unfold mgo.FindIdOne.
      destruct (mgo.nextCall c) as [[msg|] c1] eqn:En; simpl;
        rewrite ?Hc; pose proof (nextCall_docs _ _ _ En) as Hd.
      * repeat split; auto; try discriminate.
      * destruct (mgo.docs c1 !! asn); simpl;
          repeat split; auto; try discriminate.
    + rewrite Hc. repeat split; auto; try discriminate.
  - run. unfold docsOf. destruct (overrides h) as [c|] eqn:Hc; simpl.
    + unfold mgo.FindAll.
      destruct (mgo.nextCall c) as [[msg|] c1] eqn:En; simpl;
        pose proof (nextCall_docs _ _ _ En) as Hd.
      * repeat split; auto.
      * destruct (map_to_list (mgo.docs c1)); simpl; repeat split; auto.
    + rewrite Hc. repeat split; auto.
Qed.


(** X2: with a configured store, [OverridesLookup] returns the
    description the store holds for the identifier and no error, or
    [OverridesAsnNotFoundError] when it holds none; when the transport
    fails it returns the failure wrapped, never one of the sentinels. *)
Theorem Lookup_outcomes h c asn :
  overrides h = Some c ->
  (mgo.noFault 1 c ->
   (OverridesLookup asn h).1.1
   = match mgo.docs c !! asn with
     | Some d => (d, None)
     | None => ("", Some OverridesAsnNotFoundError)
     end)
  /\ (forall msg, hd None (mgo.faults c) = Some msg ->
      (OverridesLookup asn h).1.1
      = ("", Some (Errorf ("cannot lookup override: " ++ msg)))).
Proof.
  intros Hc. split.
  - intros Hf. destruct (OverridesLookup_ok h c asn Hc Hf) as (h' & l & E).
    by rewrite E.
  - intros msg Hm. run. rewrite Hc. simpl.
    unfold mgo.FindIdOne, mgo.nextCall.
    destruct (mgo.faults c) as [|f fs]; simpl in Hm; [discriminate|].
    subst f. reflexivity.
Qed.


(** X4: when [OverridesSet] returns no error, the store is configured,
    the identifier matches the ASN syntax, and the records are the
    former ones with the identifier bound to the description; when
    [OverridesRemove] returns no error, the records are the former ones
    without the identifier. *)
Theorem success_means_written asn d h :
  ((OverridesSet reASN asn d h).1.1 = None ->
   is_Some (overrides h) /\ reASN asn = true
   /\ docsOf (OverridesSet reASN asn d h).1.2 = <[asn := d]> (docsOf h))
  /\ ((OverridesRemove asn h).1.1 = None ->
      is_Some (overrides h)
      /\ docsOf (OverridesRemove asn h).1.2 = delete asn (docsOf h)).
Proof.
  split.
  - destruct (OverridesSet_effect asn d h)
      as (e & h' & calls & -> & Hca & [(-> & Hre & Hd & Hs)|(Hne & _)]);
      simpl; intros He; [done | by destruct Hne].
  - destruct (OverridesRemove_effect asn h)
      as (e & h' & calls & -> & Hca & [(-> & Hd & Hs)|(Hne & _)]);
      simpl; intros He; [done | by destruct Hne].
Qed.

(** X5: [OverridesSet] overwrites. After [OverridesSet(id, d1)] and
    [OverridesSet(id, d2)], [OverridesLookup(id)] returns [d2]. *)
Theorem Set_overwrites h c asn d1 d2 :
  overrides h = Some c ->
  reASN asn = true ->
  mgo.noFault 3 c ->
  exists h1 calls1 h2 calls2 h3 calls3,
    OverridesSet reASN asn d1 h = (None, h1, calls1)
    /\ OverridesSet reASN asn d2 h1 = (None, h2, calls2)
    /\ OverridesLookup asn h2 = ((d2, None), h3, calls3).
Proof.
  intros Hc Hre Hf.
  destruct (OverridesSet_ok reASN 2 h c asn d1 Hc Hre Hf)
    as (c1 & calls1 & E1 & Hd1 & Hf1).
  destruct (OverridesSet_ok reASN 1
              {| cache := purgeASN asn (cache h); overrides := Some c1 |}
              c1 asn d2 eq_refl Hre Hf1)
    as (c2 & calls2 & E2 & Hd2 & Hf2).
  destruct (OverridesLookup_ok
              {| cache :=
                   purgeASN asn
                     (cache {| cache := purgeASN asn (cache h);
                               overrides := Some c1 |});
                 overrides := Some c2 |}
              c2 asn eq_refl Hf2)
    as (h3 & calls3 & E3).
  rewrite Hd2, lookup_insert_eq in E3.
  do 6 eexists. repeat split; eassumption.
Qed.

(** X6: [OverridesSet] and [OverridesRemove] touch the given identifier
    only: whatever they return, the record and the cache entry of every
    other identifier are as before. *)
Theorem other_keys_untouched asn d h k :
  k <> asn ->
  (docsOf (OverridesSet reASN asn d h).1.2 !! k = docsOf h !! k
   /\ cache (OverridesSet reASN asn d h).1.2 !! k = cache h !! k)
  /\ (docsOf (OverridesRemove asn h).1.2 !! k = docsOf h !! k
      /\ cache (OverridesRemove asn h).1.2 !! k = cache h !! k).
Proof.
  intros Hk. split.
  - destruct (OverridesSet_effect asn d h)
      as (e & h' & calls & -> & Hca & Hcases); cbn [fst snd].
    rewrite Hca, purgeASN_other by done. split; [|done].
    destruct Hcases as [(_ & _ & -> & _)|(_ & ->)]; [|done].
    by rewrite lookup_insert_ne.
  - destruct (OverridesRemove_effect asn h)
      as (e & h' & calls & -> & Hca & Hcases); cbn [fst snd].
    rewrite Hca, purgeASN_other by done. split; [|done].
    destruct Hcases as [(_ & -> & _)|(_ & ->)]; [|done].
    by rewrite lookup_delete_ne.
Qed.

(** X7: no method ever puts a record under an identifier that does not
    match the ASN syntax. If every record of the store has a matching
    identifier, so it is after [OverridesSet], [OverridesRemove],
    [OverridesLookup] and [OverridesList], whatever they return. *)
Theorem keys_stay_wellformed asn d h :
  (forall k, is_Some (docsOf h !! k) -> reASN k = true) ->
  forall k,
    (is_Some (docsOf (OverridesSet reASN asn d h).1.2 !! k)
     -> reASN k = true)
    /\ (is_Some (docsOf (OverridesRemove asn h).1.2 !! k)
        -> reASN k = true)
    /\ (is_Some (docsOf (OverridesLookup asn h).1.2 !! k)
        -> reASN k = true)
    /\ (is_Some (docsOf (OverridesList h).1.2 !! k) -> reASN k = true).
Proof.
  intros Hinv k. repeat split.
  - destruct (OverridesSet_effect asn d h)
      as (e & h' & calls & -> & _ & [(_ & Hre & Hd & _)|(_ & Hd)]);
      cbn [fst snd]; rewrite Hd; [|by apply Hinv].
    destruct (decide (k = asn)) as [->|Hne]; [done|].
    rewrite lookup_insert_ne by done. apply Hinv.
  - destruct (OverridesRemove_effect asn h)
      as (e & h' & calls & -> & _ & [(_ & Hd & _)|(_ & Hd)]);
      cbn [fst snd]; rewrite Hd; [|by apply Hinv].
    destruct (decide (k = asn)) as [->|Hne].
    + rewrite lookup_delete_eq. by intros [? ?].
    + rewrite lookup_delete_ne by done. apply Hinv.
  - rewrite (proj1 (reads_keep_docs asn h)). apply Hinv.
  - rewrite (proj2 (reads_keep_docs asn h)). apply Hinv.
Qed.

Lemma OverridesList_ok h c :
  overrides h = Some c -> mgo.noFault 1 c ->
  exists h' calls,
    OverridesList h
    = ((Some (map (fun r => {| Asn := r.1; Name := r.2 |})
                (map_to_list (mgo.docs c))), None), h', calls).
Proof.
  intros Hc Hf. run. rewrite Hc; simpl. unfold mgo.FindAll.
  destruct (nextCall_noFault _ _ Hf) as (c1 & -> & Hd & _); simpl.
  rewrite Hd. destruct (map_to_list (mgo.docs c)); simpl; eauto.
Qed.

Lemma In_rows (m : gmap string string) r :
  In r (map (fun r => {| Asn := r.1; Name := r.2 |}) (map_to_list m))
  <-> m !! Asn r = Some (Name r).
Proof.
  rewrite in_map_iff. split.
  - intros ([k v] & <- & Hin). simpl.
    by apply list_elem_of_In, elem_of_map_to_list in Hin.
  - intros Hl. exists (Asn r, Name r). split; [by destruct r|].
    by apply list_elem_of_In, elem_of_map_to_list.
Qed.

(** X8: [OverridesList] shows what [OverridesSet] and
    [OverridesRemove] did. After [OverridesSet(id, d)] the list holds
    the record [(id, d)] and no other record for [id]; after
    [OverridesRemove(id)] it holds no record for [id]. *)
Theorem List_after_write h c asn d :
  overrides h = Some c ->
  mgo.noFault 2 c ->
  (reASN asn = true ->
   exists h1 calls1 l h2 calls2,
     OverridesSet reASN asn d h = (None, h1, calls1)
     /\ OverridesList h1 = ((Some l, None), h2, calls2)
     /\ In {| Asn := asn; Name := d |} l
     /\ (forall r, In r l -> Asn r = asn -> Name r = d))
  /\ (exists h1 calls1 l h2 calls2,
         OverridesRemove asn h = (None, h1, calls1)
         /\ OverridesList h1 = ((Some l, None), h2, calls2)
         /\ (forall r, In r l -> Asn r <> asn)).
Proof.
  intros Hc Hf. split.
  - intros Hre.
    destruct (OverridesSet_ok reASN 1 h c asn d Hc Hre Hf)
      as (c1 & calls1 & E1 & Hd1 & Hf1).
    destruct (OverridesList_ok
                {| cache := purgeASN asn (cache h); overrides := Some c1 |}
                c1 eq_refl Hf1) as (h2 & calls2 & E2).
    do 5 eexists. split; [exact E1|]. split; [exact E2|].
    rewrite Hd1. split.
    + apply In_rows. simpl. by rewrite lookup_insert_eq.
    + intros r Hr Ha. apply In_rows in Hr.
      rewrite Ha, lookup_insert_eq in Hr. by injection Hr.
  - destruct (OverridesRemove_ok 1 h c asn Hc Hf)
      as (c1 & calls1 & E1 & Hd1 & Hf1).
    destruct (OverridesList_ok
                {| cache := purgeASN asn (cache h); overrides := Some c1 |}
                c1 eq_refl Hf1) as (h2 & calls2 & E2).
    do 5 eexists. split; [exact E1|]. split; [exact E2|].
    rewrite Hd1. intros r Hr Ha. apply In_rows in Hr.
    rewrite Ha, lookup_delete_eq in Hr. discriminate.
Qed.

(** X9: the slice [OverridesList] returns is nil exactly when it
    returns an error. *)
Theorem List_nil_iff_error h :
  (OverridesList h).1.1.1 = None <-> (OverridesList h).1.1.2 <> None.
Proof.
  run. destruct (overrides h) as [c|]; simpl; [|done].
  destruct (mgo.FindAll c) as [[[rows|]|err] c']; simpl;
    split; try done.
Qed.

(** X10: [OverridesRemove] does not look at the syntax of the
    identifier, and removing twice is removing once: for every
    identifier, after [OverridesRemove(id)] a second
    [OverridesRemove(id)] returns no error and leaves the same
    records, and [OverridesLookup(id)] fails with
    [OverridesAsnNotFoundError]. *)
Theorem Remove_twice h c asn :
  overrides h = Some c ->
  mgo.noFault 3 c ->
  exists h1 calls1 h2 calls2 h3 calls3,
    OverridesRemove asn h = (None, h1, calls1)
    /\ OverridesRemove asn h1 = (None, h2, calls2)
    /\ docsOf h2 = docsOf h1
    /\ docsOf h1 = delete asn (mgo.docs c)
    /\ OverridesLookup asn h2
       = (("", Some OverridesAsnNotFoundError), h3, calls3).
Proof.
  intros Hc Hf.
  destruct (OverridesRemove_ok 2 h c asn Hc Hf)
    as (c1 & calls1 & E1 & Hd1 & Hf1).
  destruct (OverridesRemove_ok 1
              {| cache := purgeASN asn (cache h); overrides := Some c1 |}
              c1 asn eq_refl Hf1)
    as (c2 & calls2 & E2 & Hd2 & Hf2).
  destruct (OverridesLookup_ok
              {| cache :=
                   purgeASN asn
                     (cache {| cache := purgeASN asn (cache h);
                               overrides := Some c1 |});
                 overrides := Some c2 |}
              c2 asn eq_refl Hf2)
    as (h3 & calls3 & E3).
  rewrite Hd2, lookup_delete_eq in E3.
  do 6 eexists. split; [exact E1|]. split; [exact E2|].
  split; [|split; [exact Hd1 | exact E3]].
  unfold docsOf. simpl. rewrite Hd2, Hd1. by rewrite delete_delete_eq.
Qed.

End More.
End overrides_more.

(** * The further properties at concrete inputs *)

Module runs_more.
Import net iputils prefixes ranges geoipdb views.
Import iputils_facts overrides_facts iputils_more overrides_more.
Local Open Scope list_scope.

Lemma Lookup_outcomes_witness :
  (OverridesLookup "AS2" busyHandler).1.1 = ("two"%string, None)
  /\ (OverridesLookup "AS7" busyHandler).1.1
     = (""%string, Some OverridesAsnNotFoundError)
  /\ (OverridesLookup "AS2" downHandler).1.1
     = (""%string,
        Some (Errorf "cannot lookup override: no reachable servers")).
Proof.
  split; [|split].
  - apply (proj1 (Lookup_outcomes busyHandler _ "AS2" eq_refl)).
    constructor.
  - apply (proj1 (Lookup_outcomes busyHandler _ "AS7" eq_refl)).
    constructor.
  - apply (proj2 (Lookup_outcomes downHandler _ "AS2" eq_refl)).
    reflexivity.
Defined.


Lemma success_means_written_witness :
  (OverridesSet asDigits "AS1" "one" busyHandler).1.1 = None
  /\ docsOf (OverridesSet asDigits "AS1" "one" busyHandler).1.2
     = <["AS1" := "one"%string]> (docsOf busyHandler)
  /\ (OverridesRemove "AS2" busyHandler).1.1 = None
  /\ docsOf (OverridesRemove "AS2" busyHandler).1.2
     = delete "AS2" (docsOf busyHandler).
Proof.
  destruct (success_means_written asDigits "AS1" "one" busyHandler)
    as (Hs & _).
  destruct (success_means_written asDigits "AS2" "" busyHandler)
    as (_ & Hr).
  split; [reflexivity|]. split; [apply Hs; reflexivity|].
  split; [reflexivity|]. apply Hr; reflexivity.
Defined.

Lemma Set_overwrites_witness :
  exists h1 calls1 h2 calls2 h3 calls3,
    OverridesSet asDigits "AS2" "deux" busyHandler = (None, h1, calls1)
    /\ OverridesSet asDigits "AS2" "zwei" h1 = (None, h2, calls2)
    /\ OverridesLookup "AS2" h2 = (("zwei"%string, None), h3, calls3).
Proof.
  apply (Set_overwrites asDigits busyHandler _ "AS2" "deux" "zwei" eq_refl);
    [reflexivity | constructor].
Defined.

Lemma other_keys_untouched_witness :
  docsOf (OverridesRemove "AS1" busyHandler).1.2 !! "AS2"
  = docsOf busyHandler !! "AS2"
  /\ cache (OverridesRemove "AS1" busyHandler).1.2 !! "AS2"
     = cache busyHandler !! "AS2".
Proof.
  apply (other_keys_untouched asDigits "AS1" "" busyHandler "AS2").
  discriminate.
Defined.

Lemma keys_stay_wellformed_witness :
  (forall k, is_Some (docsOf busyHandler !! k) -> asDigits k = true)
  /\ forall k,
      is_Some (docsOf (OverridesSet asDigits "bogus" "x" busyHandler).1.2
               !! k) -> asDigits k = true.
Proof.
  assert (H : forall k, is_Some (docsOf busyHandler !! k)
                        -> asDigits k = true).
  { intros k [v Hv].
    change (docsOf busyHandler) with ({["AS2" := "two"%string]}
                                       : gmap string string) in Hv.
    apply lookup_singleton_Some in Hv as [<- _]. reflexivity. }
  split; [exact H|]. intros k.
  exact (proj1 (keys_stay_wellformed asDigits "bogus" "x" busyHandler H k)).
Defined.

Lemma List_after_write_witness :
  exists h1 calls1 l h2 calls2,
    OverridesSet asDigits "AS1" "one" busyHandler = (None, h1, calls1)
    /\ OverridesList h1 = ((Some l, None), h2, calls2)
    /\ In {| Asn := "AS1"; Name := "one" |} l
    /\ (forall r, In r l -> Asn r = "AS1"%string -> Name r = "one"%string).
Proof.
  apply (proj1 (List_after_write asDigits busyHandler _ "AS1" "one" eq_refl
                  ltac:(constructor))).
  reflexivity.
Defined.

Lemma List_nil_iff_error_witness :
  (OverridesList downHandler).1.1.1 = None
  /\ (OverridesList downHandler).1.1.2 <> None.
Proof.
  split; [reflexivity|].
  apply (proj1 (List_nil_iff_error downHandler)). reflexivity.
Defined.

Lemma Remove_twice_witness :
  exists h1 calls1 h2 calls2 h3 calls3,
    OverridesRemove "AS2" busyHandler = (None, h1, calls1)
    /\ OverridesRemove "AS2" h1 = (None, h2, calls2)
    /\ docsOf h2 = docsOf h1
    /\ docsOf h1 = delete "AS2" (docsOf busyHandler)
    /\ OverridesLookup "AS2" h2
       = ((""%string, Some OverridesAsnNotFoundError), h3, calls3).
Proof.
  apply (Remove_twice busyHandler _ "AS2" eq_refl). constructor.
Defined.

Lemma IsLocalIP_other_lengths_witness :
  IsLocalIP_on nonGlobalIPv4CIDRs nonGlobalIPv6CIDRs (Some []) = false
  /\ IsLocalIP (Some []) = false.
Proof.
  apply (IsLocalIP_other_lengths nonGlobalIPv4CIDRs nonGlobalIPv6CIDRs []);
    simpl; lia.
Defined.

Lemma IsLocalIP_on_same_entries_witness :
  parses "10.0.0.0/33" = false
  /\ IsLocalIP_on ["10.0.0.0/33"; "fc00::/7"; "10.0.0.0/8"]%string []
       (Some [x0a; x01; x02; x03])
     = IsLocalIP_on ["10.0.0.0/8"; "fc00::/7"]%string []
         (Some [x0a; x01; x02; x03]).
Proof.
  split; [reflexivity|].
  apply (IsLocalIP_on_same_entries
           ["10.0.0.0/33"; "fc00::/7"; "10.0.0.0/8"]%string []
           ["10.0.0.0/8"; "fc00::/7"]%string []).
  - intros c Hc. simpl. split.
    + intros [<-|[<-|[<-|[]]]]; [discriminate Hc | tauto | tauto].
    + intros [<-|[<-|[]]]; tauto.
  - intros c _. tauto.
Defined.

Lemma IsLocalIP_octets6_witness :
  IsLocalIP (Some [x20; x01; x0d; xb8; x00; x00; x00; x00;
                   x00; x00; x00; x00; x00; x00; x00; x01])
  = nonGlobalV6 [32; 1; 13; 184; 0; 0; 0; 0; 0; 0; 0; 0; 0; 0; 0; 1]%N
  /\ nonGlobalV6 [32; 1; 13; 184; 0; 0; 0; 0; 0; 0; 0; 0; 0; 0; 0; 1]%N
     = true
  /\ IsLocalIP (Some [x20; x01; x48; x60; x48; x60; x00; x00;
                      x00; x00; x00; x00; x00; x00; x88; x88])
     = nonGlobalV6 [32; 1; 72; 96; 72; 96; 0; 0; 0; 0; 0; 0; 0; 0; 136; 136]%N
  /\ nonGlobalV6 [32; 1; 72; 96; 72; 96; 0; 0; 0; 0; 0; 0; 0; 0; 136; 136]%N
     = false.
Proof.
  split; [|split; [reflexivity|split; [|reflexivity]]].
  - apply (IsLocalIP_octets6
             [x20; x01; x0d; xb8; x00; x00; x00; x00;
              x00; x00; x00; x00; x00; x00; x00; x01]);
      [reflexivity | discriminate].
  - apply (IsLocalIP_octets6
             [x20; x01; x48; x60; x48; x60; x00; x00;
              x00; x00; x00; x00; x00; x00; x88; x88]);
      [reflexivity | discriminate].
Defined.

Lemma init_reports_first_witness :
  init_on ["10.0.0.0/8"; "300.1.2.3/8"]%string ["::1/128"; "nonsense"]%string
  = Panic "unparseable CIDR '300.1.2.3/8': invalid CIDR address: 300.1.2.3/8"
  /\ exists before c after err,
      (["10.0.0.0/8"; "300.1.2.3/8"]%string
         ++ ["::1/128"; "nonsense"]%string)%list
      = (before ++ c :: after)%list
      /\ Forall (fun x => parses x = true) before
      /\ ParseCIDR c = inr err
      /\ "unparseable CIDR '300.1.2.3/8': invalid CIDR address: 300.1.2.3/8"%string
         = ("unparseable CIDR '" ++ c ++ "': invalid CIDR address: "
            ++ c)%string.
Proof.
  split; [reflexivity|].
  apply (init_reports_first
           ["10.0.0.0/8"; "300.1.2.3/8"]%string
           ["::1/128"; "nonsense"]%string).
  reflexivity.
Defined.

End runs_more.
